(** * insights-core: the human readable formatter, the lssap parser and the
      dependency engine they are clients of

    The development follows the layout of the repository:
    - [Py]     : the few Python notions the sources rely on (exceptions,
                 slices, substring test, [sorted(set(..))], [rstrip]);
    - [Dr]     : the dependency engine (registry, resolver, broker, observer
                 channel) that [insights.core.dr] provides;
    - [Text]   : [insights/formats/text.py];
    - [Lssap]  : [insights/parsers/lssap.py];
    - [Demo], [Scenario] : concrete hosts, brokers and registries for the
                 examples.
    Definitions come first, the statements about them follow in the
    [..Facts] modules. *)

From Stdlib Require Import Ascii.
From stdpp Require Import gmap strings list relations sorting pretty.

(** ** Results of fallible computations *)

Inductive result (E A : Type) : Type :=
| Ok (a : A)
| Err (e : E).
Arguments Ok {E A} a.
Arguments Err {E A} e.

Global Instance result_ret {E} : MRet (result E) := λ A a, Ok a.
Global Instance result_bind {E} : MBind (result E) := λ A B f m,
  match m with
  | Ok a => f a
  | Err e => Err e
  end.

Definition is_ok {E A} (r : result E A) : bool :=
  match r with Ok _ => true | Err _ => false end.

(** ** The Python notions the sources rely on *)

Module Py.

Inductive Exception : Type :=
| KeyError (key : string)
| TypeError
| AttributeError (attr : string)
| ParseException (message : string).

Definition nl : string := String "010"%char "".

(** [c * n] for a one character string. *)
Fixpoint times (c : ascii) (n : nat) : string :=
  match n with
  | O => ""
  | S n' => String c (times c n')
  end.

(** *** Dictionaries with string keys, in insertion order *)

Definition dict (V : Type) : Type := list (string * V).

Fixpoint dict_get {V} (k : string) (d : dict V) : option V :=
  match d with
  | [] => None
  | (k', v) :: d' => if bool_decide (k' = k) then Some v else dict_get k d'
  end.

Definition dict_keys {V} (d : dict V) : list string := d.*1.

(** [d[k] = v]: an existing key keeps its position. *)
Fixpoint dict_set {V} (k : string) (v : V) (d : dict V) : dict V :=
  match d with
  | [] => [(k, v)]
  | (k', v') :: d' =>
      if bool_decide (k' = k) then (k, v) :: d' else (k', v') :: dict_set k v d'
  end.

(** [d[k]] *)
Definition getitem {V} (k : string) (d : dict V) : result Exception V :=
  match dict_get k d with
  | Some v => Ok v
  | None => Err (KeyError k)
  end.

(** [d[k] += n] *)
Definition add_to (k : string) (n : nat) (d : dict nat) : result Exception (dict nat) :=
  old ← getitem k d; Ok (dict_set k (old + n) d).

(** [d.get(k, 0)], the way a counter is read. *)
Definition count_of (k : string) (d : dict nat) : nat := default 0 (dict_get k d).

(** *** Slices *)

(** The bound a slice index denotes in a sequence of length [n]. *)
Definition slice_bound (n : nat) (i : Z) : nat :=
  if bool_decide (i < 0)%Z then Z.to_nat (Z.max 0 (i + Z.of_nat n))
  else Z.to_nat (Z.min i (Z.of_nat n)).

(** [l[start:stop]] *)
Definition slice {A} (start stop : Z) (l : list A) : list A :=
  let lo := slice_bound (length l) start in
  let hi := slice_bound (length l) stop in
  take (hi - lo) (drop lo l).

(** *** Strings *)

(** [needle in hay] *)
Fixpoint contains (needle hay : string) : bool :=
  String.prefix needle hay ||
  match hay with
  | EmptyString => false
  | String _ hay' => contains needle hay'
  end.

(** [needle] occurs in [hay] as a substring. *)
Definition occurs_in (needle hay : string) : Prop :=
  ∃ pre post, hay = pre +:+ needle +:+ post.

Definition increasing (l : list string) : Prop :=
  Sorted (λ x y, String.compare x y = Lt) l.

Definition is_in (chars : string) (c : ascii) : bool :=
  bool_decide (c ∈ String.list_ascii_of_string chars).

(** [s.rstrip(chars)] *)
Fixpoint rstrip (chars : string) (s : string) : string :=
  match s with
  | EmptyString => EmptyString
  | String c s' =>
      match rstrip chars s' with
      | EmptyString => if is_in chars c then EmptyString else String c EmptyString
      | rest => String c rest
      end
  end.

(** Insertion in a list kept strictly increasing. *)
Fixpoint insert_new (x : string) (l : list string) : list string :=
  match l with
  | [] => [x]
  | y :: l' =>
      match String.compare x y with
      | Lt => x :: l
      | Eq => l
      | Gt => y :: insert_new x l'
      end
  end.

(** [sorted(set(l))] *)
Definition sorted_set (l : list string) : list string := foldr insert_new [] l.

(** [sorted(l, key=key)]: the sort is stable. *)
Fixpoint insert_by {A} (key : A → string) (x : A) (l : list A) : list A :=
  match l with
  | [] => [x]
  | y :: l' =>
      if String.leb (key x) (key y) then x :: l else y :: insert_by key x l'
  end.

Definition sorted_by {A} (key : A → string) (l : list A) : list A :=
  foldr (insert_by key) [] l.

End Py.

(** ** The dependency engine *)

(** Modelled from the spec: [insights.core.dr] is not among the sources, so
    the registry, the resolver, the broker and the observer channel of this
    module follow sections 3 and 4 of the spec. *)
Module Dr.

(** Modelled from the spec: the closed set of capability tags of section 3;
    the names are those [text.py] imports from the [insights] package
    ([datasource], [parser], [condition], [incident], [rule]). *)
Inductive Capability : Set :=
| datasource | parser | combiner | condition | incident | rule
| metadata | metadata_key.

Global Instance Capability_eq_dec : EqDecision Capability.
Proof. solve_decision. Defined.

Definition Capability_index (t : Capability) : nat :=
  match t with
  | datasource => 0 | parser => 1 | combiner => 2 | condition => 3
  | incident => 4 | rule => 5 | metadata => 6 | metadata_key => 7
  end.

Definition Capability_at (n : nat) : Capability :=
  match n with
  | 0 => datasource | 1 => parser | 2 => combiner | 3 => condition
  | 4 => incident | 5 => rule | 6 => metadata | _ => metadata_key
  end.

Global Instance Capability_countable : Countable Capability.
Proof.
  refine (inj_countable' Capability_index Capability_at _). by intros [].
Defined.

Section Engine.
Context {Id : Type} `{Countable Id}.
Context {V F Obs : Type}.

(** *** Data model (spec, section 3) *)

Inductive Dep : Type :=
| Required (b : Id)
| Optional (b : Id).

Definition dep_id (d : Dep) : Id :=
  match d with Required b | Optional b => b end.

Definition is_required (d : Dep) : bool :=
  match d with Required _ => true | Optional _ => false end.

(** Modelled from the spec: a Unit is an identity, an ordered collection of
    dependencies (required and optional, distinguished), a capability tag
    and a body that accepts the resolved values of the dependencies and
    produces a result ([inl]) or raises ([inr]). *)
Record Unit : Type := mkUnit {
  identity : Id;
  deps : list Dep;
  tag : Capability;
  body : list (option V) → V + F
}.

Definition dep_ids (u : Unit) : list Id := dep_id <$> deps u.
Definition required (u : Unit) : list Id := dep_id <$> filter (λ d, is_required d = true) (deps u).

Inductive Outcome : Type :=
| Value (v : V)
| Skipped (missing_required_deps : list Id)
| Failed (failure : F).

Inductive EngineError : Type :=
| DuplicateIdentity (a : Id)
| NotFound (a : Id)
| UnresolvedDependency (a : Id)
| CyclicDependency (cycle_path : list Id)
| FuelExhausted.

(** *** Registry (spec, section 4.1) *)

(** Units in registration order. *)
Definition Registry : Type := list Unit.

Definition find_unit (reg : Registry) (a : Id) : option Unit :=
  find (λ u, bool_decide (identity u = a)) reg.

Definition identities (reg : Registry) : list Id := identity <$> reg.

(** Modelled from the spec: [register(unit)] fails with [DuplicateIdentity]
    if the identity is already present. *)
Definition register (u : Unit) (reg : Registry) : result EngineError Registry :=
  if bool_decide (identity u ∈ identities reg)
  then Err (DuplicateIdentity (identity u))
  else Ok (reg ++ [u]).

(** Modelled from the spec: [lookup(identity)] returns the Unit or fails
    with [NotFound]. *)
Definition lookup_unit (reg : Registry) (a : Id) : result EngineError Unit :=
  match find_unit reg a with
  | Some u => Ok u
  | None => Err (NotFound a)
  end.

Definition allUnits (reg : Registry) : list Unit := reg.

(** *** Graph resolver (spec, section 4.2) *)

(** The part of the current path from the first visit of [a] up to now,
    closed by [a] again; [path] holds the most recent node first. *)
Fixpoint since (a : Id) (path : list Id) : list Id :=
  match path with
  | [] => []
  | b :: path' => if bool_decide (b = a) then [] else b :: since a path'
  end.

Definition cycle_path (a : Id) (path : list Id) : list Id :=
  a :: reverse (since a path) ++ [a].

Definition fold_visit (visit1 : list Id → Id → result EngineError (list Id))
  : list Id → list Id → result EngineError (list Id) :=
  fix go (bs : list Id) (out : list Id) :=
    match bs with
    | [] => Ok out
    | b :: bs' => out' ← visit1 out b; go bs' out'
    end.

(** Modelled from the spec: depth-first topological sort over the
    required+optional edge set, visiting each node once, with a "currently
    visiting" marker ([path]) that detects a node revisited while still on
    the current path; an identity absent from the Registry fails with
    [UnresolvedDependency].  [out] is the order emitted so far.  The
    recursion depth is bounded by the number of registered units, which is
    what [fuel] counts ([FuelExhausted] is never returned by [resolve],
    see [DrFacts.resolve_fuel_adequate]). *)
Fixpoint visit (fuel : nat) (reg : Registry) (path out : list Id) (a : Id)
  : result EngineError (list Id) :=
  match fuel with
  | O => Err FuelExhausted
  | S fuel' =>
      if bool_decide (a ∈ out) then Ok out
      else if bool_decide (a ∈ path) then Err (CyclicDependency (cycle_path a path))
      else match find_unit reg a with
           | None => Err (UnresolvedDependency a)
           | Some u =>
               out' ← fold_visit (visit fuel' reg (a :: path)) (dep_ids u) out;
               Ok (out' ++ [a])
           end
  end.

Definition resolve (reg : Registry) : result EngineError (list Id) :=
  fold_visit (visit (S (length reg)) reg []) (identities (allUnits reg)) [].

(** The dependency graph of a registry. *)
Definition registered (reg : Registry) (a : Id) : Prop := a ∈ identities reg.

Definition edge (reg : Registry) (a b : Id) : Prop :=
  ∃ u, find_unit reg a = Some u ∧ b ∈ dep_ids u.

Definition acyclic (reg : Registry) : Prop := ∀ a, ¬ tc (edge reg) a a.

(** Every declared dependency is itself registered. *)
Definition closed (reg : Registry) : Prop :=
  ∀ a b, edge reg a b → registered reg b.

Definition precedes (b a : Id) (order : list Id) : Prop :=
  ∃ l1 l2 l3, order = l1 ++ b :: l2 ++ a :: l3.

(** What the resolver maintains: every emitted identity is registered, is
    emitted once, and comes after all its dependencies. *)
Inductive topo (reg : Registry) : list Id → Prop :=
| topo_nil : topo reg []
| topo_snoc out a u :
    topo reg out → a ∉ out → find_unit reg a = Some u →
    (∀ b, b ∈ dep_ids u → b ∈ out) →
    topo reg (out ++ [a]).

(** The resolver contract of section 8, for one registry: [resolve]
    returns a sequence holding every registered identity exactly once, in
    which every dependency precedes its dependent. *)
Definition resolves_topologically (reg : Registry) : Prop :=
  ∃ order, resolve reg = Ok order ∧
    NoDup order ∧ (∀ a, a ∈ order ↔ registered reg a) ∧
    (∀ a b, edge reg a b → precedes b a order).

(** Checkable sufficient conditions for [closed] and [acyclic]. *)
Definition closed_check (reg : Registry) : Prop :=
  Forall (λ u, Forall (λ b, b ∈ identities reg) (dep_ids u)) reg.

Definition ranked (rank : Id → nat) (reg : Registry) : Prop :=
  Forall (λ u, Forall (λ b, rank b < rank (identity u)) (dep_ids u)) reg.

(** *** Observer notification channel (spec, section 4.4) *)

(** Modelled from the spec: a selector is either a specific Unit identity
    or a capability tag. *)
Inductive Selector : Type :=
| OnUnit (a : Id)
| OnTag (t : Capability).

Definition selects (sel : Selector) (a : Id) (t : Capability) : bool :=
  match sel with
  | OnUnit b => bool_decide (b = a)
  | OnTag t' => bool_decide (t' = t)
  end.

(** Registrations, oldest first. *)
Definition Observers : Type := list (Obs * Selector).

(** Modelled from the spec: [addObserver(callback, selector)]. *)
Definition subscribe (o : Obs) (sel : Selector) (obs : Observers) : Observers :=
  obs ++ [(o, sel)].

(** The callbacks to invoke, in registration order, when the unit [a] of
    capability [t] completes. *)
Definition matching (obs : Observers) (a : Id) (t : Capability) : list Obs :=
  fst <$> filter (λ r, selects r.2 a t = true) obs.

(** *** Broker (spec, section 4.3) *)

(** Modelled from the spec: the per-run state.  [notified] is the log of
    the notifications delivered (callback and unit identity, oldest first)
    and [invocations] counts how many times each body was invoked. *)
Record Broker : Type := mkBroker {
  outcomes : gmap Id Outcome;
  exceptions : gmap Id (list F);
  skipped : gset Id;
  observers : Observers;
  notified : list (Obs * Id);
  invocations : gmap Id nat
}.

Definition new_broker (obs : Observers) : Broker :=
  mkBroker ∅ ∅ ∅ obs [] ∅.

Definition add_observer (o : Obs) (sel : Selector) (s : Broker) : Broker :=
  mkBroker (outcomes s) (exceptions s) (skipped s)
           (subscribe o sel (observers s)) (notified s) (invocations s).

Definition invocation_count (s : Broker) (a : Id) : nat :=
  default 0 (invocations s !! a).

Definition value_of (s : Broker) (b : Id) : option V :=
  match outcomes s !! b with
  | Some (Value v) => Some v
  | _ => None
  end.

Definition has_value (s : Broker) (b : Id) : bool :=
  bool_decide (is_Some (value_of s b)).

Definition missing_requirements (s : Broker) (u : Unit) : list Id :=
  filter (λ b, has_value s b = false) (required u).

Definition set_outcome (a : Id) (o : Outcome) (s : Broker) : Broker :=
  mkBroker (<[a := o]> (outcomes s)) (exceptions s) (skipped s)
           (observers s) (notified s) (invocations s).

Definition mark_skipped (a : Id) (s : Broker) : Broker :=
  mkBroker (outcomes s) (exceptions s) ({[a]} ∪ skipped s)
           (observers s) (notified s) (invocations s).

Definition capture (a : Id) (f : F) (s : Broker) : Broker :=
  mkBroker (outcomes s) (<[a := default [] (exceptions s !! a) ++ [f]]> (exceptions s))
           (skipped s) (observers s) (notified s) (invocations s).

Definition count_invocation (a : Id) (s : Broker) : Broker :=
  mkBroker (outcomes s) (exceptions s) (skipped s) (observers s) (notified s)
           (<[a := S (invocation_count s a)]> (invocations s)).

Definition notify (a : Id) (t : Capability) (s : Broker) : Broker :=
  mkBroker (outcomes s) (exceptions s) (skipped s) (observers s)
           (notified s ++ ((λ o, (o, a)) <$> matching (observers s) a t))
           (invocations s).

(** Modelled from the spec: steps 1 to 4 of [run] for one unit.  A required
    dependency whose Outcome is not a [Value] makes the unit [Skipped]
    without invoking its body; otherwise the body receives the resolved
    values (an absent optional dependency as [None]) and its result or
    failure is recorded; observers are notified in both cases. *)
Definition run_unit (u : Unit) (s : Broker) : Broker :=
  let a := identity u in
  notify a (tag u)
    match missing_requirements s u with
    | [] =>
        match body u (value_of s <$> dep_ids u) with
        | inl v => set_outcome a (Value v) (count_invocation a s)
        | inr f => capture a f (set_outcome a (Failed f) (count_invocation a s))
        end
    | missing => mark_skipped a (set_outcome a (Skipped missing) s)
    end.

(** Modelled from the spec: [run(order)] executes units strictly in
    resolver order. *)
Fixpoint run (reg : Registry) (order : list Id) (s : Broker)
  : result EngineError Broker :=
  match order with
  | [] => Ok s
  | a :: rest => u ← lookup_unit reg a; run reg rest (run_unit u s)
  end.

(** Load Registry, resolve, run on a fresh Broker. *)
Definition execute (reg : Registry) (obs : Observers) : result EngineError Broker :=
  order ← resolve reg; run reg order (new_broker obs).

(** The Outcome of [b] is [Skipped] or [Failed]. *)
Definition unavailable (s : Broker) (b : Id) : Prop :=
  (∃ m, outcomes s !! b = Some (Skipped m)) ∨ (∃ f, outcomes s !! b = Some (Failed f)).

(** A visitor is sound when it only extends a well formed order, by nodes
    that are not on the current path, and leaves the visited node in it. *)
Definition sound_visitor (reg : Registry) (path : list Id)
    (v : list Id → Id → result EngineError (list Id)) : Prop :=
  ∀ out b out', topo reg out → v out b = Ok out' →
    topo reg out' ∧ b ∈ out' ∧
    ∃ ext, out' = out ++ ext ∧ ∀ x, x ∈ ext → x ∉ path.

End Engine.

Arguments Unit : clear implicits.
Arguments Registry : clear implicits.
Arguments Outcome : clear implicits.
Arguments EngineError : clear implicits.
Arguments Dep : clear implicits.
Arguments Selector : clear implicits.
Arguments Observers : clear implicits.
Arguments Broker Id {_ _} V F Obs.

End Dr.

(** ** insights/formats/text.py *)

Module Text.
Import Py Dr.

(** The values the formatter meets in a Broker: [None], a string, another
    hashable object, and an object that cannot be hashed (a list, a dict, a
    set), which no dict accepts as a key. *)
Inductive atom : Type :=
| ANone
| AStr (s : string)
| AOther (truthy : bool)
| AUnhashable (truthy : bool).

(** An element of a list valued datasource result. *)
Inductive element : Type :=
| EProvider (path : string)
| EOther.

Inductive pyval : Type :=
| VNone
| VDict (d : gmap string atom)
| VList (items : list element)
| VContext (all_files : option (list string))
| VProvider (path : string)
| VObject (truthy : bool).

Inductive printable : Type :=
| PStr (s : string)
| PSet (s : gset string).

(** [colorama]'s [Fore] and [Style], as far as the module uses them. *)
Record Colors : Type := mkColors {
  BLUE : string; GREEN : string; YELLOW : string; RED : string;
  MAGENTA : string; CYAN : string; RESET_ALL : string
}.

(** Without [colorama] every attribute of [Fore] and [Style] is the empty
    string (the [Default] metaclass). *)
Definition no_colors : Colors := mkColors "" "" "" "" "" "" "".

(** What the module imports: components and what [dr], [inspect],
    [insights.formats] and [pprint] say about them. *)
Class Host : Type := {
  component : Type;
  component_eq_dec :: EqDecision component;
  (** [dr.get_name] *)
  get_name : component → string;
  (** the capability tag the Registry records for a component (spec,
      section 2); [None] for a key that is no unit *)
  get_component_type : component → option Capability;
  (** [inspect.isclass] *)
  isclass : component → bool;
  (** [issubclass(k, ExecutionContext)] *)
  is_execution_context : component → bool;
  (** [insights.formats.render] *)
  render : component → pyval → string;
  (** [pprint.pformat(object, indent)] *)
  pformat : nat → printable → string;
  Fore : Colors
}.

Inductive Callback : Type :=
| ProgressBar
| OtherCallback (n : nat).

Global Instance Callback_eq_dec : EqDecision Callback.
Proof. solve_decision. Defined.

Record response : Type := mkResponse {
  color : string; label : string; intl : string; title : string
}.


Definition vocabulary : list string :=
  ["skip"; "pass"; "fingerprint"; "rule"; "metadata"; "metadata_key"; "exception"].

Section Formatter.
Context `{Host}.

(** Modelled from the spec: the part of the Broker the outcome query
    interface exposes to the formatter ([instances], [exceptions], the
    tracebacks and the observer registrations). *)
Record Broker : Type := mkBroker {
  instances : list (component * pyval);
  exceptions : list (component * list string);
  broker_tracebacks : list (string * string);
  observers : Observers component Callback
}.

(** [broker.get(c)]: the value in [instances], [None] without one *)
Definition broker_get (broker : Broker) (c : component) : pyval :=
  default VNone (snd <$> find (λ kv, bool_decide (kv.1 = c)) (instances broker)).

(** [broker[c]]: the value in [instances], KeyError without one *)
Definition broker_getitem (broker : Broker) (c : component) : result Exception pyval :=
  match find (λ kv, bool_decide (kv.1 = c)) (instances broker) with
  | Some kv => Ok kv.2
  | None => Err (KeyError (get_name c))
  end.

(** Modelled from the spec: [getByCapability(tag)], the results of the
    components that carry the tag. *)
Definition get_by_type (t : Capability) (broker : Broker) : list (component * pyval) :=
  filter (λ kv, get_component_type kv.1 = Some t) (instances broker).

(** Modelled from the spec: [addObserver(callback, selector)] with a
    capability tag as selector. *)
Definition add_observer (o : Callback) (t : Capability) (broker : Broker) : Broker :=
  mkBroker (instances broker) (exceptions broker) (broker_tracebacks broker)
           (subscribe o (OnTag t) (observers broker)).

(** [broker.exceptions[c]], when [c in broker.exceptions] *)
Definition exceptions_of (broker : Broker) (c : component) : option (list string) :=
  snd <$> find (λ kv, bool_decide (kv.1 = c)) (exceptions broker).

(** Truth value of an object. *)
Definition atom_truthy (a : atom) : bool :=
  match a with
  | ANone => false
  | AStr s => negb (bool_decide (s = ""))
  | AOther t => t
  | AUnhashable t => t
  end.

Definition truthy (v : pyval) : bool :=
  match v with
  | VNone => false
  | VDict d => negb (bool_decide (d = ∅))
  | VList items => negb (bool_decide (length items = 0))
  | VContext _ => true
  | VProvider _ => true
  | VObject t => t
  end.

Definition is_dict (v : pyval) : bool :=
  match v with VDict _ => true | _ => false end.

(** [len(v) > 0 and 'type' in v], for a dict *)
Definition has_type (v : pyval) : bool :=
  match v with
  | VDict d => bool_decide (0 < size d) && bool_decide (is_Some (d !! "type"))
  | _ => false
  end.

(** [v["type"]] *)
Definition type_item (v : pyval) : result Exception atom :=
  match v with
  | VDict d =>
      match d !! "type" with
      | Some a => Ok a
      | None => Err (KeyError "type")
      end
  | _ => Err TypeError
  end.

(** [v.get("type")], for the dicts the rules return *)
Definition type_get (v : pyval) : result Exception atom :=
  match v with
  | VDict d => Ok (default ANone (d !! "type"))
  | _ => Err (AttributeError "get")
  end.

(** [a in responses] and [responses[a]] for a key that need not be a
    string: the key is hashed first, which raises TypeError for a list, a
    dict or a set; a hashable key that is no string is not in the dict. *)
Definition response_of (responses : dict response) (a : atom)
  : result Exception (option response) :=
  match a with
  | AStr s => Ok (dict_get s responses)
  | AUnhashable _ => Err TypeError
  | ANone | AOther _ => Ok None
  end.

Definition atom_key (a : atom) : string :=
  match a with AStr s => s | _ => "" end.

(** [_find_context] *)
Fixpoint find_context_in (items : list (component * pyval)) : pyval :=
  match items with
  | [] => VNone
  | (k, v) :: items' =>
      if isclass k && is_execution_context k then v else find_context_in items'
  end.

Definition _find_context (broker : Broker) : pyval :=
  find_context_in (instances broker).

(** *** HumanReadableFormat *)

(** What [__init__] stores. *)
Record Options : Type := mkOptions {
  opt_missing : bool;
  opt_tracebacks : bool;
  opt_dropped : bool;
  opt_stream : list string
}.

(** The formatter once [preprocess] has run.  [stream] is the text written
    so far, one entry per [print]. *)
Record HumanReadableFormat : Type := mkFormat {
  missing : bool;
  tracebacks : bool;
  dropped : bool;
  stream : list string;
  responses : dict response;
  counts : dict nat
}.

Definition write (text : string) (self : HumanReadableFormat) : HumanReadableFormat :=
  mkFormat (missing self) (tracebacks self) (dropped self)
           (stream self ++ [text]) (responses self) (counts self).

Definition set_counts (cs : dict nat) (self : HumanReadableFormat) : HumanReadableFormat :=
  mkFormat (missing self) (tracebacks self) (dropped self)
           (stream self) (responses self) cs.

(** [print(text, file=self.stream)] and [print(file=self.stream)] *)
Definition print (text : string) (self : HumanReadableFormat) : HumanReadableFormat :=
  write (text +:+ nl) self.

Definition print_blank (self : HumanReadableFormat) : HumanReadableFormat :=
  write nl self.

Definition print_header (header : string) (color : string)
    (self : HumanReadableFormat) : HumanReadableFormat :=
  let ln := String.length header in
  print (times "-"%char ln +:+ RESET_ALL Fore)
    (print header
       (print (color +:+ times "-"%char ln) self)).

Definition the_responses : dict response :=
  [ ("skip", mkResponse (BLUE Fore) "SKIP" "S" "Missing Deps: ");
    ("pass", mkResponse (GREEN Fore) "PASS" "P" "Passed      : ");
    ("fingerprint", mkResponse (YELLOW Fore) "FINGERPRINT" "P" "Fingerprint : ");
    ("rule", mkResponse (RED Fore) "FAIL" "F" "Failed      : ");
    ("metadata", mkResponse (YELLOW Fore) "META" "M" "Metadata    : ");
    ("metadata_key", mkResponse (MAGENTA Fore) "META" "K" "Metadata Key: ");
    ("exception", mkResponse (RED Fore) "EXCEPT" "E" "Exceptions  : ") ].

Definition preprocess (opts : Options) (broker : Broker) : HumanReadableFormat * Broker :=
  let responses := the_responses in
  let counts := foldl (λ cs key, dict_set key 0 cs) [] (dict_keys responses) in
  let self := mkFormat (opt_missing opts) (opt_tracebacks opts) (opt_dropped opts)
                       (opt_stream opts) responses counts in
  (print_header "Progress:" (CYAN Fore) self,
   add_observer ProgressBar parser
     (add_observer ProgressBar incident
        (add_observer ProgressBar condition
           (add_observer ProgressBar rule broker)))).

Definition progress_bar (self : HumanReadableFormat) (c : component) (broker : Broker)
  : result Exception HumanReadableFormat :=
  let v := broker_get broker c in
  if truthy v && is_dict v && has_type v then
    t ← type_item v;
    r ← response_of (responses self) t;
    match r with
    | Some r => Ok (write (color r +:+ intl r +:+ RESET_ALL Fore) self)
    | None => Ok (write "." self)
    end
  else
    match exceptions_of broker c with
    | Some excs =>
        cs ← add_to "exception" (length excs) (counts self);
        Ok (write (RED Fore +:+ "E" +:+ RESET_ALL Fore) (set_counts cs self))
    | None => Ok self
    end.

Definition show_tracebacks (self : HumanReadableFormat) (broker : Broker)
  : HumanReadableFormat :=
  match broker_tracebacks broker with
  | [] => self
  | tbs => foldl (λ self t, print t self) (print "Tracebacks:" (print_blank self)) tbs.*2
  end.

(** [v.path] *)
Definition path_of (v : pyval) : result Exception string :=
  match v with
  | VProvider p => Ok p
  | _ => Err (AttributeError "path")
  end.

Definition element_path (d : element) : result Exception string :=
  match d with
  | EProvider p => Ok p
  | EOther => Err (AttributeError "path")
  end.

(** [d.path for d in v] *)
Fixpoint paths_in (items : list element) : result Exception (list string) :=
  match items with
  | [] => Ok []
  | d :: items' => p ← element_path d; ps ← paths_in items'; Ok (p :: ps)
  end.

(** The list [vals] that [show_dropped] builds from [ds.values()]. *)
Fixpoint paths_of (values : list pyval) : result Exception (list string) :=
  match values with
  | [] => Ok []
  | v :: rest =>
      here ← match v with
              | VList items => paths_in items
              | _ => p ← path_of v; Ok [p]
              end;
      more ← paths_of rest;
      Ok (here ++ more)
  end.

(** [ctx.all_files] *)
Definition all_files_of (ctx : pyval) : result Exception (option (list string)) :=
  match ctx with
  | VContext files => Ok files
  | _ => Err (AttributeError "all_files")
  end.

Definition files_truthy (files : option (list string)) : bool :=
  match files with
  | Some (_ :: _) => true
  | _ => false
  end.

(** [pprint(object, indent=indent, stream=self.stream)] *)
Definition pprint (indent : nat) (object : printable)
    (self : HumanReadableFormat) : HumanReadableFormat :=
  write (pformat indent object +:+ nl) self.

Definition show_dropped (self : HumanReadableFormat) (broker : Broker)
  : result Exception HumanReadableFormat :=
  let ctx := _find_context broker in
  if truthy ctx then
    files ← all_files_of ctx;
    if files_truthy files then
      let ds := get_by_type datasource broker in
      vals ← paths_of ds.*2;
      let dropped : gset string := list_to_set (default [] files) ∖ list_to_set vals in
      Ok (pprint 4 (PSet dropped) (pprint 1 (PStr "Dropped Files:") self))
    else Ok self
  else Ok self.

Definition is_skip (a : atom) : bool :=
  match a with
  | AStr s => bool_decide (s = "skip")
  | _ => false
  end.

(** [responses[t]] *)
Definition response_item (responses : dict response) (t : atom)
  : result Exception response :=
  r ← response_of responses t;
  match r with
  | Some r => Ok r
  | None => Err (KeyError (atom_key t))
  end.

(** The inner function [printit] of [show_description]. *)
Definition printit (self : HumanReadableFormat) (c : component) (v : pyval)
  : result Exception HumanReadableFormat :=
  _type ← type_get v;
  if atom_truthy _type then
    let underline := times "-"%char (String.length (get_name c)) in
    t ← type_item v;
    resp ← response_item (responses self) t;
    let name := color resp +:+ "[" +:+ label resp +:+ "] " +:+ get_name c
                +:+ RESET_ALL Fore in
    if negb (is_skip _type) || (is_skip _type && missing self) then
      Ok (print_blank (print (render c v) (print underline (print name self))))
    else Ok self
  else Ok self.

(** [if v["type"] in self.responses: self.counts[v["type"]] += 1] *)
Definition count_rule (self : HumanReadableFormat) (v : pyval)
  : result Exception HumanReadableFormat :=
  t ← type_item v;
  r ← response_of (responses self) t;
  match r with
  | Some _ => cs ← add_to (atom_key t) 1 (counts self); Ok (set_counts cs self)
  | None => Ok self
  end.

(** The loop over the rules, already sorted by name. *)
Fixpoint describe_rules (self : HumanReadableFormat) (broker : Broker)
    (rules : list component) : result Exception HumanReadableFormat :=
  match rules with
  | [] => Ok self
  | c :: rest =>
      v ← broker_getitem broker c;
      self1 ← count_rule self v;
      self2 ← printit self1 c v;
      describe_rules self2 broker rest
  end.

Definition summary_line (self : HumanReadableFormat) (c : string)
  : result Exception string :=
  r ← getitem c (responses self);
  n ← getitem c (counts self);
  Ok (color r +:+ title r +:+ pretty n +:+ RESET_ALL Fore).

(** The loop [for c in self.counts] over the keys [keys]. *)
Fixpoint print_summary (self : HumanReadableFormat) (keys : list string)
  : result Exception HumanReadableFormat :=
  match keys with
  | [] => Ok self
  | c :: rest => line ← summary_line self c; print_summary (print line self) rest
  end.

Definition sorted_rules (broker : Broker) : list component :=
  sorted_by get_name (get_by_type rule broker).*1.

Definition show_description (self : HumanReadableFormat) (broker : Broker)
  : result Exception HumanReadableFormat :=
  self1 ← describe_rules self broker (sorted_rules broker);
  let self2 := print_header "Rule Execution Summary" (CYAN Fore) (print_blank self1) in
  print_summary self2 (dict_keys (counts self2)).

Definition postprocess (self : HumanReadableFormat) (broker : Broker)
  : result Exception HumanReadableFormat :=
  let self1 := if tracebacks self then show_tracebacks self broker else self in
  self2 ← (if dropped self1 then show_dropped self1 broker else Ok self1);
  show_description
    (print_header "Rules Executed" (CYAN Fore) (print_blank (print_blank self2)))
    broker.

(** *** A run, as the formatter sees it *)

(** The notifications of a run: each completed component with the Broker as
    it is at that moment. *)
Fixpoint notifications (self : HumanReadableFormat)
    (events : list (component * Broker)) : result Exception HumanReadableFormat :=
  match events with
  | [] => Ok self
  | (c, broker) :: rest => self' ← progress_bar self c broker; notifications self' rest
  end.

(** [preprocess], the notifications of [dr.run], [postprocess] on the final
    Broker. *)
Definition session (opts : Options) (broker0 : Broker)
    (events : list (component * Broker)) (final : Broker)
  : result Exception HumanReadableFormat :=
  self ← notifications (preprocess opts broker0).1 events;
  postprocess self final.

(** The classification tag of a result, when it has one. *)
Definition tag_of (v : pyval) : option string :=
  match v with
  | VDict d => match d !! "type" with Some (AStr s) => Some s | _ => None end
  | _ => None
  end.

(** How many rule results of the Broker carry the classification tag [t]. *)
Definition tally (t : string) (broker : Broker) : nat :=
  length (filter (λ c, tag_of (broker_get broker c) = Some t) (get_by_type rule broker).*1).

(** The exceptions a notification adds to the count: those captured for a
    component that completed without a typed result. *)
Definition captured (ev : component * Broker) : nat :=
  let v := broker_get ev.2 ev.1 in
  if truthy v && is_dict v && has_type v then 0
  else length (default [] (exceptions_of ev.2 ev.1)).

(** *** Notions used to state what the formatter does *)

(** A classification tag is handled when [self.responses] has an entry for
    it. *)
Definition handled (self : HumanReadableFormat) (t : string) : Prop := is_Some (dict_get t (responses self)).

(** The state [preprocess] establishes and the callbacks keep. *)
Definition prepared (self : HumanReadableFormat) : Prop :=
  responses self = the_responses ∧ dict_keys (counts self) = vocabulary.

(** The key of an entry of [broker.instances] is a context class. *)
Definition is_context_key (kv : component * pyval) : bool :=
  isclass kv.1 && is_execution_context kv.1.

(** The tags [preprocess] subscribes to. *)
Definition progress_tags : list Capability := [rule; condition; incident; parser].

(** The datasource result [v] holds the path [p]: it is a provider with that
    path, or a list with such an element. *)
Definition provides (v : pyval) (p : string) : Prop :=
  v = VProvider p ∨ ∃ items, v = VList items ∧ EProvider p ∈ items.

(** What [show_description] prints for the rule [c] with result [v]: its
    coloured label and name, an underline, the rendered result and an empty
    line; nothing for a result without a classification tag. *)
Definition block (rs : dict response) (c : component) (v : pyval) : list string :=
  match tag_of v with
  | Some t =>
      match dict_get t rs with
      | Some resp =>
          if bool_decide (t = "") then []
          else [ (color resp +:+ "[" +:+ label resp +:+ "] " +:+ get_name c
                  +:+ RESET_ALL Fore) +:+ nl;
                 times "-"%char (String.length (get_name c)) +:+ nl;
                 render c v +:+ nl;
                 nl ]
      | None => []
      end
  | None => []
  end.

(** The result is tagged 'skip'. *)
Definition is_skipped (v : pyval) : bool := bool_decide (tag_of v = Some "skip").

(** Same options and same responses: what the callbacks never change. *)
Definition same_setup (self self' : HumanReadableFormat) : Prop :=
  missing self' = missing self ∧ tracebacks self' = tracebacks self ∧
  dropped self' = dropped self ∧ responses self' = responses self.

(** The blocks printed for a list of rules, skipped ones shown only on
    request. *)
Definition blocks (show_missing : bool) (rs : dict response) (broker : Broker)
    (rules : list component) : list string :=
  flat_map (λ c, block rs c (broker_get broker c))
    (filter (λ c, show_missing || negb (is_skipped (broker_get broker c)) = true) rules).

(** How many of [rules] have a result tagged [k]. *)
Definition tagged (broker : Broker) (k : string) (rules : list component) : nat :=
  length (filter (λ c, tag_of (broker_get broker c) = Some k) rules).

(** One line of the Rule Execution Summary. *)
Definition summary_text (rs : dict response) (cs : dict nat) (k : string) : string :=
  match dict_get k rs with
  | Some r => (color r +:+ title r +:+ pretty (count_of k cs) +:+ RESET_ALL Fore) +:+ nl
  | None => nl
  end.

(** What [print_header] writes. *)
Definition header_lines (header color : string) : list string :=
  [ (color +:+ times "-"%char (String.length header)) +:+ nl;
    header +:+ nl;
    (times "-"%char (String.length header) +:+ RESET_ALL Fore) +:+ nl ].

(** A rule result as the rule plugins build them: a dict whose type is one
    of the tags the formatter knows. *)
Definition well_tagged (v : pyval) : Prop :=
  ∃ d t, v = VDict d ∧ d !! "type" = Some (AStr t) ∧ t ∈ vocabulary.

(** Every rule result the Broker holds is well tagged. *)
Definition rules_well_tagged (broker : Broker) : Prop :=
  ∀ c, c ∈ (get_by_type rule broker).*1 → well_tagged (broker_get broker c).

(** The count a run ends with, for the tag [k]. *)
Definition final_count (events : list (component * Broker)) (final : Broker)
    (k : string) : nat :=
  tally k final +
  (if bool_decide (k = "exception") then sum_list (captured <$> events) else 0).

End Formatter.
End Text.

(** ** insights/parsers/lssap.py *)

Module Lssap.
Import Py.

(** A row of the table: column heading to cell. *)
Abbreviation row := (gmap string string).

Section Parser.
(** [insights.parsers.parse_delimited_table(table_lines, delim='|',
    header_delim=None)], which the parser imports. *)
Variable parse_delimited_table : list string → list row.
(** How [str.format] shows the content in the error message. *)
Variable repr : list string → string.

Record Lssap : Type := mkLssap {
  data : list row;
  sid : list string;
  instances : list string;
  instance_types : list string
}.

Definition unparsable (content : list string) : Exception :=
  ParseException ("Lssap: Unable to parse " +:+ pretty (length content)
                  +:+ " line(s) of content: (" +:+ repr content +:+ ")").

Definition parse_content (content : list string) : result Exception Lssap :=
  (* remove lssap version and bar text from content *)
  let clean_content := slice 2 (-1) content in
  if bool_decide (0 < length clean_content)
     && default false (contains "SID" <$> clean_content !! 0)
  then
    let data := parse_delimited_table clean_content in
    let sid := sorted_set (omap (λ r : row, r !! "SID") data) in
    let instances := omap (λ r : row, r !! "Instance") data in
    let instance_types := sorted_set (rstrip "1234567890" <$> instances) in
    Ok (mkLssap data sid instances instance_types)
  else Err (unparsable content).

(** The loop of [version] over the rows. *)
Fixpoint version_in (rows : list row) (instance : string)
  : result Exception (option string) :=
  match rows with
  | [] => Ok None
  | r :: rest =>
      match r !! "Instance" with
      | None => Err (KeyError "Instance")
      | Some i =>
          if bool_decide (instance = i) then
            match r !! "Version" with
            | Some v => Ok (Some v)
            | None => Err (KeyError "Version")
            end
          else version_in rest instance
      end
  end.

(** [version] returns the object as it leaves it and the value returned or
    the exception raised. *)
Definition version (self : Lssap) (instance : string)
  : Lssap * result Exception (option string) :=
  (self, version_in (data self) instance).

Definition is_netweaver (self : Lssap) : bool := bool_decide ("D" ∈ instance_types self).
Definition is_hana (self : Lssap) : bool := bool_decide ("HDB" ∈ instance_types self).
Definition is_ascs (self : Lssap) : bool := bool_decide ("ASCS" ∈ instance_types self).

(** The first row whose Instance column is [instance], with what precedes
    it. *)
Definition first_match (rows : list row) (instance : string)
    (before : list row) (r : row) : Prop :=
  ∃ after, rows = before ++ r :: after ∧
    r !! "Instance" = Some instance ∧
    Forall (λ r' : row, r' !! "Instance" ≠ Some instance) before.

End Parser.

(** *** A table reader for the examples *)

(** [s.split(delim)] *)
Fixpoint split_at (delim : ascii) (s : string) : list string :=
  match s with
  | EmptyString => [EmptyString]
  | String c s' =>
      if bool_decide (c = delim) then EmptyString :: split_at delim s'
      else match split_at delim s' with
           | cell :: cells => String c cell :: cells
           | [] => [String c EmptyString]
           end
  end.

Fixpoint lstrip_blanks (s : string) : string :=
  match s with
  | String " " s' => lstrip_blanks s'
  | _ => s
  end.

Definition strip_blanks (s : string) : string := rstrip " " (lstrip_blanks s).

(** A reader for the examples, standing in for [parse_delimited_table],
    which is not among the sources.  It reads the table of the module
    docstring the way the examples given there require: the first line gives
    the headings, separated by blanks; every other line gives a row, its
    cells separated by [delim] and stripped; a row shorter than the heading
    holds the leading columns only. *)
Definition read_table (delim : ascii) (table_lines : list string) : list row :=
  match table_lines with
  | [] => []
  | header :: lines =>
      let headings := String.words header in
      (λ line, list_to_map (zip headings (strip_blanks <$> split_at delim line))) <$> lines
  end.

Definition show_lines (content : list string) : string :=
  "[" +:+ String.concat ", " content +:+ "]".

Definition lssap_output : list string :=
  [ " - lssap version 1.0 -";
    " ==========================================";
    "   SID   Nr   Instance    SAPLOCALHOST                        Version                 DIR_EXECUTABLE";
    "   HA2|  16|       D16|         lu0417|749, patch 10, changelist 1698137|          /usr/sap/HA2/D16/exe";
    "   HA2|  22|       D22|         lu0417|749, patch 10, changelist 1698137|          /usr/sap/HA2/D22/exe";
    "   HA2|  50|       D50|         lu0417|749, patch 10, changelist 1698137|          /usr/sap/HA2/D50/exe";
    "   HA2|  51|       D51|         lu0417|749, patch 10, changelist 1698137|          /usr/sap/HA2/D51/exe";
    " ==========================================" ].

(** A table with a row that stops after the second column. *)
Definition lssap_short_row : list string :=
  [ " - lssap version 1.0 -";
    " ==========================================";
    "   SID   Nr   Instance    SAPLOCALHOST                        Version                 DIR_EXECUTABLE";
    "   HA2|  16";
    " ==========================================" ].

Definition parsed (content : list string) : result Exception Lssap :=
  parse_content (read_table "|") show_lines content.

End Lssap.

(** ** Notions for the behaviour of the lssap parser *)

Module LssapNotions.
Import Py Lssap.

(** The characters [rstrip] removes from an instance name. *)
Definition digits : string := "1234567890".

(** Every character of [s] is one of [chars]. *)
Definition only (chars s : string) : Prop :=
  ∀ c, c ∈ String.list_ascii_of_string s → is_in chars c = true.

(** Some row has an Instance cell that is [T] followed by digits only. *)
Definition has_instance_of (self : Lssap) (T : string) : Prop :=
  ∃ (r : row) ds, r ∈ data self ∧ r !! "Instance" = Some (T +:+ ds) ∧ only digits ds.

(** The row has an Instance cell that is not [instance]. *)
Definition other_instance (instance : string) (r : row) : Prop :=
  ∃ i, r !! "Instance" = Some i ∧ i ≠ instance.

(** The row has both cells [version] reads. *)
Definition complete (r : row) : Prop :=
  is_Some (r !! "Instance") ∧ is_Some (r !! "Version").

End LssapNotions.

(** ** Notions for the behaviour of the formatter over a whole run *)

Module TextNotions.
Import Py Dr Text.

Section Formatter.
Context `{Host}.

(** The component has a result [progress_bar] looks into: a non empty dict
    with a 'type' entry. *)
Definition typed (c : component) (broker : Broker) : Prop :=
  ∃ d a, broker_get broker c = VDict d ∧ d !! "type" = Some a.

(** The component leaves a mark on the progress line: it has a typed result
    or the Broker holds exceptions for it. *)
Definition noticed (ev : component * Broker) : Prop :=
  typed ev.1 ev.2 ∨ is_Some (exceptions_of ev.2 ev.1).

Global Instance typed_dec c broker : Decision (typed c broker).
Proof.
  unfold typed. destruct (broker_get broker c) as [|d| | | |];
    try (right; intros (? & ? & ? & ?); discriminate).
  destruct (d !! "type") as [a|] eqn:Ha.
  - left. by exists d, a.
  - right. intros (d' & a & [= <-] & Ha'). congruence.
Defined.

Global Instance noticed_dec ev : Decision (noticed ev).
Proof. unfold noticed. apply _. Defined.

(** The marks of the progress line: a dot, the exception mark, or the
    initial of one of the responses between its colour and the reset. *)
Definition is_mark (m : string) : Prop :=
  m = "." ∨ m = RED Fore +:+ "E" +:+ RESET_ALL Fore ∨
  ∃ k r, dict_get k the_responses = Some r ∧ m = color r +:+ intl r +:+ RESET_ALL Fore.

(** The result of the rule [c] is a dict whose type is the string [t]. *)
Definition tagged_with (broker : Broker) (c : component) (t : string) : Prop :=
  ∃ d, broker_get broker c = VDict d ∧ d !! "type" = Some (AStr t).

(** The value under 'type', when the result is a dict that has one, can be
    hashed: it is no list, dict or set. *)
Definition hashable_type (v : pyval) : bool :=
  match v with
  | VDict d => match d !! "type" with Some (AUnhashable _) => false | _ => true end
  | _ => true
  end.

(** Every notified result has a hashable type. *)
Definition hashable_events (events : list (component * Broker)) : Prop :=
  Forall (λ ev, hashable_type (broker_get ev.2 ev.1) = true) events.

(** Modelled from the spec: when a unit completes the Broker invokes the
    matching observers synchronously, in registration order, passing the
    unit identity and the Broker itself (section 4.4).  [ProgressBar] is the
    bound method [self.progress_bar]; the other callbacks do not touch the
    formatter. *)
Fixpoint deliver (self : HumanReadableFormat) (c : component) (broker : Broker)
    (callbacks : list Callback) : result Exception HumanReadableFormat :=
  match callbacks with
  | [] => Ok self
  | ProgressBar :: rest => self' ← progress_bar self c broker; deliver self' c broker rest
  | OtherCallback _ :: rest => deliver self c broker rest
  end.

(** The unit [c] of capability [t] completed on [broker]. *)
Definition completed (self : HumanReadableFormat) (broker : Broker) (c : component)
    (t : Capability) : result Exception HumanReadableFormat :=
  deliver self c broker (matching (observers broker) c t).

(** The notifications the engine delivers to [progress_bar] in a run over
    [order]: one for each unit whose capability tag [preprocess] subscribed
    to. *)
Definition progress_notifications {V F : Type} (reg : Registry component V F)
    (order : list component) : list (Callback * component) :=
  omap (λ a, u ← find_unit reg a;
             if bool_decide (tag u ∈ progress_tags) then Some (ProgressBar, a) else None)
       order.

(** What [show_tracebacks] writes for a Broker. *)
Definition traceback_lines (broker : Broker) : list string :=
  match broker_tracebacks broker with
  | [] => []
  | tbs => [nl; "Tracebacks:" +:+ nl] ++ ((λ t, t +:+ nl) <$> tbs.*2)
  end.

(** The rules in the order of their names. *)
Definition name_order (c1 c2 : component) : Prop :=
  String.le (get_name c1) (get_name c2).

(** Every datasource result has a path, or is a list of results that have
    one. *)
Definition datasources_have_paths (broker : Broker) : Prop :=
  ∀ c v, (c, v) ∈ get_by_type datasource broker →
    (∃ p, v = VProvider p) ∨
    (∃ items, v = VList items ∧ ∀ d, d ∈ items → ∃ p, d = EProvider p).

(** What [_find_context] yields is [None] or an execution context. *)
Definition context_or_none (broker : Broker) : Prop :=
  _find_context broker = VNone ∨ ∃ files, _find_context broker = VContext files.

End Formatter.
End TextNotions.

(** A small host for examples: components are described by what the
    formatter asks about them, rendering shows the name only and there are no
    colours. *)
Module Demo.
Import Py Dr Text.

Record Component : Type := mkComponent {
  name : string;
  kind : option Capability;
  is_class : bool;
  is_context : bool
}.

Global Instance Component_eq_dec : EqDecision Component.
Proof. solve_decision. Defined.

Global Instance Component_countable : Countable Component.
Proof.
  refine (inj_countable' (λ c, (name c, kind c, is_class c, is_context c))
            (λ t, mkComponent t.1.1.1 t.1.1.2 t.1.2 t.2) _).
  by intros [].
Defined.

Definition demo_render (c : Component) (v : pyval) : string :=
  "<" +:+ name c +:+ ">".

Definition demo_pformat (indent : nat) (object : printable) : string :=
  match object with
  | PStr s => "'" +:+ s +:+ "'"
  | PSet files => "{" +:+ String.concat ", " (elements files) +:+ "}"
  end.

Global Instance demo_host : Host := {|
  component := Component;
  get_name := name;
  get_component_type := kind;
  isclass := is_class;
  is_execution_context := is_context;
  render := demo_render;
  pformat := demo_pformat;
  Fore := no_colors
|}.

Definition HostContext : Component := mkComponent "HostContext" None true true.
Definition hostname : Component := mkComponent "hostname" (Some datasource) false false.
Definition messages : Component := mkComponent "messages" (Some datasource) false false.
Definition Uname : Component := mkComponent "Uname" (Some parser) true false.
Definition report_a : Component := mkComponent "report_a" (Some rule) false false.
Definition report_b : Component := mkComponent "report_b" (Some rule) false false.

Definition typed (t : string) : pyval := VDict {[ "type" := AStr t ]}.

Definition options (show_missing : bool) : Options :=
  mkOptions show_missing false true [].

Definition empty_broker : Broker := mkBroker [] [] [] [].

Definition archive_files : list string :=
  ["/etc/hostname"; "/var/log/messages"; "/etc/motd"].

(** The parser raised once; nothing else ran. *)
Definition broker_parser_failed : Broker :=
  mkBroker [] [(Uname, ["ValueError"])] [("ValueError", "Traceback ...")] [].

(** An archive with three files of which two were read, and two rules: one
    fired, one was skipped. *)
Definition broker_done : Broker :=
  mkBroker
    [ (HostContext, VContext (Some ["/etc/hostname"; "/var/log/messages"; "/etc/motd"]));
      (hostname, VProvider "/etc/hostname");
      (messages, VList [EProvider "/var/log/messages"]);
      (report_b, typed "skip");
      (report_a, typed "rule") ]
    [] [] [].

(** A rule result with a tag the formatter does not know. *)
Definition broker_fail_tag : Broker :=
  mkBroker [(report_a, typed "fail")] [] [] [].

Definition fresh (show_missing : bool) : HumanReadableFormat :=
  (preprocess (options show_missing) empty_broker).1.

End Demo.

(** The registries of the scenarios of section 8 of the spec. *)
Module Scenario.
Import Dr.

Definition unit := Unit string string string.

Definition rank (a : string) : nat :=
  if bool_decide (a = "D") then 0
  else if bool_decide (a = "P") then 1
  else if bool_decide (a = "B") then 0
  else 2.

Definition parse (args : list (option string)) : string + string :=
  match args with
  | [Some raw] => inl ("parsed:" +:+ raw)
  | _ => inr "TypeError"
  end.

Definition P : unit := mkUnit "P" [Required "D"] parser parse.
Definition R1 : unit := mkUnit "R1" [Required "P"] rule (λ _, inl "pass").
Definition R2 : unit := mkUnit "R2" [Required "P"] rule (λ _, inr "ValueError").

(** The data provider succeeds with ["raw"]. *)
Definition D : unit := mkUnit "D" [] datasource (λ _, inl "raw").
Definition healthy : Registry string string string := [D; P; R1; R2].

(** The data provider fails. *)
Definition D_failing : unit := mkUnit "D" [] datasource (λ _, inr "IOError").
Definition broken : Registry string string string := [D_failing; P; R1; R2].

(** A unit that requires an identity nobody registered. *)
Definition A : unit := mkUnit "A" [Required "B"] rule (λ _, inl "pass").
Definition dangling : Registry string string string := [A].

(** Two units that require each other, and two units without any
    dependency. *)
Definition X_needs_Y : unit := mkUnit "X" [Required "Y"] rule (λ _, inl "pass").
Definition Y_needs_X : unit := mkUnit "Y" [Optional "X"] rule (λ _, inl "pass").
Definition cyclic : Registry string string string := [X_needs_Y; Y_needs_X].

Definition X : unit := mkUnit "X" [] rule (λ _, inl "pass").
Definition Y : unit := mkUnit "Y" [] rule (λ _, inl "pass").
Definition independent : Registry string string string := [X; Y].

Definition no_observers : Observers string string := [].

Definition outcome_in (r : result (EngineError string) (Broker string string string string))
    (a : string) : option (Outcome string string string) :=
  match r with Ok s => outcomes s !! a | Err _ => None end.

End Scenario.

(** Notifications of a run on the demo host: a rule that fired, a parser
    that raised, a datasource that only has a value. *)
Module DemoRun.
Import Py Dr Text Demo.

Definition events : list (Component * Broker) :=
  [ (report_a, broker_done); (Uname, broker_parser_failed); (hostname, broker_done) ].

(** A rule whose result has a list where the classification tag belongs. *)
Definition broker_list_tag : Broker :=
  mkBroker [(report_a, VDict {[ "type" := AUnhashable true ]})] [] [] [].

(** The units of a small run: a datasource, a parser on it and a rule on the
    parser. *)
Definition units : Registry Component pyval string :=
  [ mkUnit hostname [] datasource (λ _, inl (VProvider "/etc/hostname"));
    mkUnit Uname [Required hostname] parser (λ _, inl (VObject true));
    mkUnit report_a [Required Uname] rule (λ _, inl (typed "rule")) ].

Definition order : list Component := [hostname; Uname; report_a].

End DemoRun.

(** ** Facts about the engine *)

Lemma is_ok_Ok {E A} (r : result E A) : is_ok r = true → ∃ a, r = Ok a.
Proof. destruct r; [by eexists | done]. Qed.

Module DrFacts.
Import Dr.

Section Resolver.
Context {Id : Type} `{Countable Id}.
Context {V F : Type}.
Implicit Types (reg : Registry Id V F) (a b : Id) (out path : list Id).

Lemma find_unit_Some reg a u :
  find_unit reg a = Some u → u ∈ reg ∧ identity u = a.
Proof.
  unfold find_unit. induction reg as [|w reg IH]; simpl; [done|].
  case_bool_decide as Hw.
  - intros [= <-]. split; [left | done].
  - intros Hf. destruct (IH Hf). split; [by right | done].
Qed.

Lemma find_unit_registered reg a :
  registered reg a ↔ is_Some (find_unit reg a).
Proof.
  unfold registered, identities, find_unit. induction reg as [|w reg IH]; simpl.
  - split; [by intros ?%elem_of_nil | by intros [? ?]].
  - case_bool_decide as Hw.
    + split; [by eauto | intros _; rewrite <- Hw; left].
    + rewrite elem_of_cons, IH. split; [intros [?|?]; [congruence|done] | by right].
Qed.

Lemma fold_visit_app (v : list Id → Id → result (EngineError Id) (list Id)) bs1 bs2 out :
  fold_visit v (bs1 ++ bs2) out = (fold_visit v bs1 out ≫= fold_visit v bs2).
Proof.
  revert out. induction bs1 as [|b bs1 IH]; intros out; simpl; [done|].
  destruct (v out b); simpl; [apply IH | done].
Qed.

(** **** Partial correctness: what an emitted order looks like *)

Lemma topo_NoDup reg out : topo reg out → NoDup out.
Proof.
  induction 1 as [|out a u _ IH Ha _ _]; [constructor|].
  apply NoDup_app. split_and!; [done | | apply NoDup_singleton].
  intros x Hx ->%list_elem_of_singleton. done.
Qed.

Lemma topo_registered reg out a : topo reg out → a ∈ out → registered reg a.
Proof.
  induction 1 as [|out a' u _ IH _ Hu _]; [by intros ?%elem_of_nil|].
  rewrite elem_of_app, list_elem_of_singleton. intros [?| ->]; [by apply IH|].
  apply find_unit_registered. by eexists.
Qed.

Lemma precedes_app_r b a l l' : precedes b a l → precedes b a (l ++ l').
Proof.
  intros (l1 & l2 & l3 & ->). exists l1, l2, (l3 ++ l').
  by rewrite <- !app_assoc; simpl; rewrite <- app_assoc.
Qed.

Lemma topo_precedes reg out a b :
  topo reg out → a ∈ out → edge reg a b → precedes b a out.
Proof.
  induction 1 as [|out a' u _ IH Ha' Hu Hdeps]; [by intros ?%elem_of_nil|].
  intros Ha Hedge. destruct (decide (a ∈ out)) as [Hin|Hnin].
  - apply precedes_app_r. by apply IH.
  - apply elem_of_app in Ha as [?|Ha]; [done|].
    apply list_elem_of_singleton in Ha as ->.
    destruct Hedge as (u' & Hu' & Hb). rewrite Hu in Hu'. injection Hu' as <-.
    apply Hdeps, list_elem_of_split in Hb as (l1 & l2 & ->).
    exists l1, l2, []. by rewrite <- app_assoc.
Qed.

Lemma fold_visit_sound reg path v bs out out' :
  sound_visitor reg path v → topo reg out → fold_visit v bs out = Ok out' →
  topo reg out' ∧ (∀ b, b ∈ bs → b ∈ out') ∧
  ∃ ext, out' = out ++ ext ∧ ∀ x, x ∈ ext → x ∉ path.
Proof.
  intros Hv. revert out. induction bs as [|b bs IH]; intros out Hout; simpl.
  - intros [= <-]. split_and!; [done | by intros b ?%elem_of_nil |].
    exists []. split; [by rewrite app_nil_r | by intros x ?%elem_of_nil].
  - destruct (v out b) as [out1|e] eqn:Hb; simpl; [|done].
    intros Hrest. destruct (Hv _ _ _ Hout Hb) as (Ht1 & Hin1 & e1 & -> & Hp1).
    destruct (IH _ Ht1 Hrest) as (Ht2 & Hin2 & e2 & -> & Hp2).
    split_and!; [done | |].
    + intros x [->|Hx]%elem_of_cons; [|by apply Hin2].
      apply elem_of_app. by left.
    + exists (e1 ++ e2). split; [by rewrite app_assoc|].
      intros x [?|?]%elem_of_app; auto.
Qed.

Lemma visit_sound fuel reg path : sound_visitor reg path (visit fuel reg path).
Proof.
  revert path. induction fuel as [|fuel IH]; intros path out a out' Hout; simpl; [done|].
  case_bool_decide as Hdone.
  { intros [= <-]. split_and!; [done | done |].
    exists []. split; [by rewrite app_nil_r | by intros x ?%elem_of_nil]. }
  case_bool_decide as Hpath; [done|].
  destruct (find_unit reg a) as [u|] eqn:Hu; [|done].
  destruct (fold_visit _ _ _) as [out1|e] eqn:Hfold; simpl; [|done].
  intros [= <-].
  destruct (fold_visit_sound _ _ _ _ _ _ (IH (a :: path)) Hout Hfold)
    as (Ht1 & Hin1 & e1 & -> & Hp1).
  assert (a ∉ out ++ e1) as Hfresh.
  { intros [?|Ha]%elem_of_app; [done|]. apply (Hp1 _ Ha). left. }
  split_and!; [by eapply topo_snoc | by apply elem_of_app; right; left |].
  exists (e1 ++ [a]). split; [by rewrite app_assoc|].
  intros x [Hx| ->%list_elem_of_singleton]%elem_of_app; [|done].
  intros Hxp. apply (Hp1 _ Hx). by right.
Qed.

Lemma resolve_sound reg order :
  resolve reg = Ok order →
  topo reg order ∧ ∀ a, registered reg a → a ∈ order.
Proof.
  unfold resolve. intros Hres.
  destruct (fold_visit_sound reg [] _ _ _ _ (visit_sound _ reg []) (topo_nil reg) Hres)
    as (Ht & Hin & _).
  split; [done|]. intros a Ha. by apply Hin.
Qed.

(** **** The fuel given by [resolve] is always enough *)

Lemma path_bound reg path :
  NoDup path → (∀ x, x ∈ path → registered reg x) → length path ≤ length reg.
Proof.
  intros Hnd Hsub. unfold registered, identities in Hsub.
  rewrite <- (length_fmap identity reg).
  apply submseteq_length, NoDup_submseteq; [done | exact Hsub].
Qed.

Lemma fold_visit_no_exhaust (v : list Id → Id → result (EngineError Id) (list Id)) bs out :
  (∀ out' b, v out' b ≠ Err FuelExhausted) → fold_visit v bs out ≠ Err FuelExhausted.
Proof.
  intros Hv. revert out. induction bs as [|b bs IH]; intros out; simpl; [done|].
  destruct (v out b) as [out1|e] eqn:Hb; simpl; [apply IH|].
  intros [= ->]. by apply (Hv out b).
Qed.

Lemma visit_no_exhaust fuel reg path out a :
  NoDup path → (∀ x, x ∈ path → registered reg x) →
  length reg < fuel + length path →
  visit fuel reg path out a ≠ Err FuelExhausted.
Proof.
  revert path out a. induction fuel as [|fuel IH]; intros path out a Hnd Hsub Hlen; simpl.
  { pose proof (path_bound _ _ Hnd Hsub). lia. }
  case_bool_decide as Hdone; [done|].
  case_bool_decide as Hpath; [done|].
  destruct (find_unit reg a) as [u|] eqn:Hu; [|done].
  destruct (fold_visit _ _ _) as [out1|e] eqn:Hfold; simpl; [done|].
  intros [= ->]. revert Hfold. apply fold_visit_no_exhaust.
  intros out' b. apply IH.
  - by constructor.
  - intros x [->|?]%elem_of_cons; [|by apply Hsub].
    apply find_unit_registered. by eexists.
  - simpl. lia.
Qed.

Lemma resolve_fuel_adequate reg : resolve reg ≠ Err FuelExhausted.
Proof.
  apply fold_visit_no_exhaust. intros out b. apply visit_no_exhaust.
  - constructor.
  - by intros x ?%elem_of_nil.
  - simpl. lia.
Qed.

(** **** Success on closed acyclic registries *)

Lemma fold_visit_total (v : list Id → Id → result (EngineError Id) (list Id)) (P : Id → Prop) bs out :
  (∀ out' b, P b → is_ok (v out' b) = true) → (∀ b, b ∈ bs → P b) →
  is_ok (fold_visit v bs out) = true.
Proof.
  intros Hv. revert out. induction bs as [|b bs IH]; intros out Hbs; simpl; [done|].
  specialize (Hv out b (Hbs b ltac:(left))).
  destruct (v out b) as [out1|e]; simpl; [|done].
  apply IH. intros x Hx. apply Hbs. by right.
Qed.

Lemma visit_total fuel reg path out a :
  closed reg → acyclic reg →
  NoDup path → (∀ x, x ∈ path → registered reg x) →
  length reg < fuel + length path →
  registered reg a → (∀ y, y ∈ path → tc (edge reg) y a) →
  is_ok (visit fuel reg path out a) = true.
Proof.
  intros Hclosed Hacyc. revert path out a.
  induction fuel as [|fuel IH]; intros path out a Hnd Hsub Hlen Ha Hreach; simpl.
  { pose proof (path_bound _ _ Hnd Hsub). lia. }
  case_bool_decide as Hdone; [done|].
  case_bool_decide as Hpath.
  { destruct (Hacyc a). by apply Hreach. }
  apply find_unit_registered in Ha as [u Hu]. rewrite Hu.
  assert (is_ok (fold_visit (visit fuel reg (a :: path)) (dep_ids u) out) = true) as Hok.
  { apply (fold_visit_total _ (λ b, edge reg a b)).
    - intros out' b Hedge. apply IH.
      + by constructor.
      + intros x [->|?]%elem_of_cons; [|by apply Hsub].
        apply find_unit_registered. by eexists.
      + simpl. lia.
      + by eapply Hclosed.
      + intros y [->|Hy]%elem_of_cons; [by apply tc_once|].
        eapply tc_r; [by apply Hreach | done].
    - intros b Hb. by exists u. }
  by destruct (fold_visit _ _ _).
Qed.

Lemma resolve_total reg :
  closed reg → acyclic reg → is_ok (resolve reg) = true.
Proof.
  intros Hclosed Hacyc. apply (fold_visit_total _ (registered reg)); [|done].
  intros out b Hb. apply visit_total; try done.
  - constructor.
  - by intros x ?%elem_of_nil.
  - simpl. lia.
  - by intros y ?%elem_of_nil.
Qed.

Lemma closed_check_closed reg : closed_check reg → closed reg.
Proof.
  intros Hc a b (u & [Hu _]%find_unit_Some & Hb).
  unfold closed_check in Hc. rewrite Forall_forall in Hc.
  specialize (Hc u Hu). rewrite Forall_forall in Hc. by apply Hc.
Qed.

Lemma ranked_acyclic rank reg : ranked rank reg → acyclic reg.
Proof.
  intros Hr. assert (∀ a b, tc (edge reg) a b → rank b < rank a) as Hdesc.
  { assert (∀ a b, edge reg a b → rank b < rank a) as Hstep.
    { intros a b (u & [Hu <-]%find_unit_Some & Hb).
      unfold ranked in Hr. rewrite Forall_forall in Hr.
      specialize (Hr u Hu). rewrite Forall_forall in Hr. by apply Hr. }
    induction 1 as [a b Hab|a b c Hab _ IH]; [by apply Hstep|].
    apply Hstep in Hab. lia. }
  intros a Ha. apply Hdesc in Ha. lia.
Qed.

(** C3, as amended: for every acyclic registry in which every declared
    dependency is itself registered, [resolve] terminates with a sequence
    that holds every registered identity exactly once and in which, for
    every required or optional edge (a -> b), b precedes a. *)
Theorem resolve_closed_acyclic reg :
  closed reg → acyclic reg → resolves_topologically reg.
Proof.
  intros Hclosed Hacyc. pose proof (resolve_total reg Hclosed Hacyc) as Hok.
  destruct (resolve reg) as [order|e] eqn:Hres; [|done].
  destruct (resolve_sound _ _ Hres) as [Ht Hall].
  exists order. split_and!; [done | by eapply topo_NoDup | |].
  - intros a. split; [by apply topo_registered | apply Hall].
  - intros a b Hedge. eapply topo_precedes; [done | | done].
    apply Hall, find_unit_registered. destruct Hedge as (u & -> & _). by eexists.
Qed.

End Resolver.

Section Run.
Context {Id : Type} `{Countable Id}.
Context {V F Obs : Type}.
Implicit Types (reg : Registry Id V F) (a b : Id) (s : Broker Id V F Obs)
  (u : Unit Id V F) (obs : Observers Id Obs).

Lemma lookup_unit_Ok reg a u :
  lookup_unit reg a = Ok u → find_unit reg a = Some u ∧ identity u = a.
Proof.
  unfold lookup_unit. destruct (find_unit reg a) as [w|] eqn:Hw; [|done].
  intros [= <-]. split; [done|]. by apply find_unit_Some in Hw as [_ ?].
Qed.

(** Running a unit touches the Outcome and the invocation count of that
    unit only. *)
Lemma run_unit_other u s x :
  x ≠ identity u →
  outcomes (run_unit u s) !! x = outcomes s !! x ∧
  invocation_count (run_unit u s) x = invocation_count s x.
Proof.
  intros Hx. unfold run_unit, invocation_count.
  destruct (missing_requirements s u); [destruct (body u _)|]; simpl;
    rewrite ?lookup_insert_ne by done; done.
Qed.

Lemma run_other reg order s s' x :
  x ∉ order → run reg order s = Ok s' →
  outcomes s' !! x = outcomes s !! x ∧
  invocation_count s' x = invocation_count s x.
Proof.
  revert s. induction order as [|a order IH]; intros s Hx; simpl.
  { by intros [= <-]. }
  apply not_elem_of_cons in Hx as [Hxa Hx].
  destruct (lookup_unit reg a) as [u|e] eqn:Hu; simpl; [|done].
  apply lookup_unit_Ok in Hu as [_ <-].
  intros Hrun. destruct (IH _ Hx Hrun) as [-> ->]. by apply run_unit_other.
Qed.

(** Running a unit keeps the registrations and appends to the log one entry
    for each observer that matches the unit, in registration order. *)
Lemma run_unit_notified u s :
  observers (run_unit u s) = observers s ∧
  notified (run_unit u s) =
    notified s ++ ((λ o, (o, identity u)) <$> matching (observers s) (identity u) (tag u)).
Proof.
  unfold run_unit. by destruct (missing_requirements s u); [destruct (body u _)|].
Qed.

Lemma run_notified reg order s s' :
  run reg order s = Ok s' →
  observers s' = observers s ∧
  notified s' =
    notified s ++
    flat_map (λ a, match find_unit reg a with
                   | Some u => (λ o, (o, a)) <$> matching (observers s) a (tag u)
                   | None => []
                   end) order.
Proof.
  revert s. induction order as [|a order IH]; intros s; simpl.
  { intros [= <-]. by rewrite app_nil_r. }
  destruct (lookup_unit reg a) as [u|e] eqn:Hu; simpl; [|done].
  apply lookup_unit_Ok in Hu as [Hfind Hid]. rewrite Hfind.
  intros Hrun. destruct (IH _ Hrun) as [Hobs Hlog].
  destruct (run_unit_notified u s) as [Hobs1 Hlog1].
  rewrite Hobs, Hlog, Hobs1, Hlog1, Hid. split; [done|]. by rewrite <- app_assoc.
Qed.

Lemma run_app reg l1 l2 s :
  run reg (l1 ++ l2) s = (run reg l1 s ≫= run reg l2).
Proof.
  revert s. induction l1 as [|a l1 IH]; intros s; simpl; [done|].
  destruct (lookup_unit reg a); simpl; [apply IH | done].
Qed.

(** Step 1 of the loop: a required dependency without a [Value] blocks the
    unit. *)
Lemma run_unit_blocked u s b :
  b ∈ required u → has_value s b = false →
  (∃ m, outcomes (run_unit u s) !! identity u = Some (Skipped m) ∧ b ∈ m) ∧
  invocation_count (run_unit u s) (identity u) = invocation_count s (identity u).
Proof.
  intros Hb Hv.
  assert (b ∈ missing_requirements s u) as Hm.
  { unfold missing_requirements. by apply list_elem_of_filter. }
  unfold run_unit. destruct (missing_requirements s u) as [|m0 m] eqn:Hmiss.
  { by apply elem_of_nil in Hm. }
  simpl. split; [|done]. exists (m0 :: m). by rewrite lookup_insert_eq.
Qed.

Lemma unavailable_no_value s b :
  unavailable s b ∨ outcomes s !! b = None → has_value s b = false.
Proof.
  unfold has_value, value_of.
  intros [[[m ->]|[f ->]]| ->]; apply bool_decide_eq_false; by intros [? ?].
Qed.

Lemma run_blocked reg order obs s a u b :
  NoDup order → a ∈ order → lookup_unit reg a = Ok u → b ∈ required u →
  run reg order (new_broker obs) = Ok s → unavailable s b →
  (∃ m, outcomes s !! a = Some (Skipped m) ∧ b ∈ m) ∧ invocation_count s a = 0.
Proof.
  intros Hnd Ha Hu Hb Hrun Hbad.
  apply list_elem_of_split in Ha as (l1 & l2 & ->).
  apply NoDup_app in Hnd as (_ & Hl1 & [Ha2 _]%NoDup_cons).
  assert (a ∉ l1) as Ha1 by (intros ?; eapply Hl1; [done | left]).
  rewrite run_app in Hrun.
  destruct (run reg l1 _) as [s1|e] eqn:Hrun1; simpl in Hrun; [|done].
  rewrite Hu in Hrun. simpl in Hrun.
  pose proof (lookup_unit_Ok _ _ _ Hu) as [_ Hid].
  destruct (run_other _ _ _ _ a Ha2 Hrun) as [-> ->].
  destruct (run_other _ _ _ _ a Ha1 Hrun1) as [_ Hcnt1].
  assert (has_value s1 b = false) as Hnv.
  { apply unavailable_no_value. destruct (decide (b ∈ l1)) as [Hin|Hnin].
    - left. assert (b ∉ l2) as Hb2.
      { intros ?. eapply Hl1; [done | by right]. }
      assert (b ≠ a) as Hne by (intros ->; done).
      destruct (run_other _ _ _ _ b Hb2 Hrun) as [Hob _].
      destruct (run_unit_other u s1 b) as [Hob' _]; [by rewrite Hid|].
      unfold unavailable in *. by rewrite <- Hob', <- Hob.
    - right. by destruct (run_other _ _ _ _ b Hnin Hrun1) as [-> _]. }
  destruct (run_unit_blocked u s1 b Hb Hnv) as [Hsk Hcnt].
  rewrite Hid in Hsk, Hcnt. split; [done|]. by rewrite Hcnt, Hcnt1.
Qed.

(** On the order the resolver returns, the run itself cannot fail. *)
Lemma run_total reg order s :
  (∀ a, a ∈ order → registered reg a) → is_ok (run reg order s) = true.
Proof.
  revert s. induction order as [|a order IH]; intros s Hreg; simpl; [done|].
  unfold lookup_unit.
  destruct (proj1 (find_unit_registered reg a) (Hreg a ltac:(left))) as [u ->].
  simpl. apply IH. intros x Hx. apply Hreg. by right.
Qed.

Lemma execute_total reg obs :
  is_ok (resolve reg) = true → is_ok (execute reg obs) = true.
Proof.
  unfold execute. destruct (resolve reg) as [order|e] eqn:Hres; [|done].
  intros _. simpl. apply run_total.
  intros a Ha. destruct (resolve_sound _ _ Hres) as [Ht _].
  by eapply topo_registered.
Qed.

(** C2: in every run, a unit [a] with a required dependency [b] whose
    Outcome is [Skipped] or [Failed] is itself [Skipped] (with [b] among
    the missing dependencies) and its body is never invoked: its invocation
    count is 0.  A dependency declared optional is not in [required u]. *)
Theorem skipped_is_infectious reg obs s a u b :
  execute reg obs = Ok s →
  lookup_unit reg a = Ok u → b ∈ required u → unavailable s b →
  (∃ m, outcomes s !! a = Some (Skipped m) ∧ b ∈ m) ∧ invocation_count s a = 0.
Proof.
  unfold execute. destruct (resolve reg) as [order|e] eqn:Hres; [|done].
  simpl. intros Hrun Hu Hb Hbad.
  destruct (resolve_sound _ _ Hres) as [Ht Hall].
  eapply run_blocked; try done.
  - by eapply topo_NoDup.
  - apply Hall, find_unit_registered.
    apply lookup_unit_Ok in Hu as [-> _]. by eexists.
Qed.

End Run.

(** *** The scenarios of section 8 *)

Section Scenarios.
Import Scenario.

Lemma healthy_closed : closed healthy.
Proof. apply closed_check_closed. repeat constructor. Qed.

Lemma healthy_acyclic : acyclic healthy.
Proof. apply (ranked_acyclic rank). repeat constructor. Qed.

Lemma dangling_acyclic : acyclic dangling.
Proof. apply (ranked_acyclic rank). repeat constructor. Qed.

Example resolve_healthy : resolve healthy = Ok ["D"; "P"; "R1"; "R2"].
Proof. reflexivity. Qed.

Example resolve_dangling : resolve dangling = Err (UnresolvedDependency "B").
Proof. reflexivity. Qed.

(** A cycle through a required and an optional edge is reported with its
    path; independent units keep their registration order. *)
Example resolve_cyclic : resolve cyclic = Err (CyclicDependency ["X"; "Y"; "X"]).
Proof. reflexivity. Qed.

Example resolve_independent : resolve independent = Ok ["X"; "Y"].
Proof. reflexivity. Qed.

Lemma resolve_closed_acyclic_witness :
  closed healthy ∧ acyclic healthy ∧ resolves_topologically healthy.
Proof.
  split; [exact healthy_closed|]. split; [exact healthy_acyclic|].
  exact (resolve_closed_acyclic healthy healthy_closed healthy_acyclic).
Defined.

(** C3 as stated fails: a registry can be acyclic and still reference an
    identity that was never registered, and then [resolve] fails fast with
    [UnresolvedDependency] instead of returning an order. *)
Lemma resolve_dangling_counterexample :
  acyclic dangling ∧ ¬ resolves_topologically dangling.
Proof.
  split; [exact dangling_acyclic|].
  intros (order & Hres & _). rewrite resolve_dangling in Hres. discriminate.
Qed.

(** First scenario: the data provider fails, everything downstream is
    skipped. *)
Example broken_outcomes :
  outcome_in (execute broken no_observers) <$> ["D"; "P"; "R1"; "R2"] =
  [Some (Failed "IOError"); Some (Skipped ["D"]); Some (Skipped ["P"]);
   Some (Skipped ["P"])].
Proof. vm_compute. reflexivity. Qed.

(** Second scenario: one rule passes, the other raises and is the only
    entry of the captured failures. *)
Example healthy_outcomes :
  outcome_in (execute healthy no_observers) <$> ["D"; "P"; "R1"; "R2"] =
  [Some (Value "raw"); Some (Value "parsed:raw"); Some (Value "pass");
   Some (Failed "ValueError")].
Proof. vm_compute. reflexivity. Qed.

Example healthy_exceptions :
  match execute healthy no_observers with
  | Ok s => map_to_list (exceptions s)
  | Err _ => []
  end = [("R2", ["ValueError"])].
Proof. vm_compute. reflexivity. Qed.

Lemma broken_runs :
  ∃ s, execute broken no_observers = Ok s ∧ outcomes s !! "D" = Some (Failed "IOError").
Proof.
  destruct (is_ok_Ok (execute broken no_observers)) as [s Hs]; [vm_compute; reflexivity|].
  exists s. split; [exact Hs|].
  change (outcome_in (Ok s) "D" = Some (Failed "IOError")).
  rewrite <- Hs. vm_compute. reflexivity.
Qed.

Lemma skipped_is_infectious_witness :
  ∃ s, execute broken no_observers = Ok s ∧
       lookup_unit broken "P" = Ok P ∧ "D" ∈ required P ∧ unavailable s "D" ∧
       ((∃ m, outcomes s !! "P" = Some (Skipped m) ∧ "D" ∈ m) ∧
        invocation_count s "P" = 0).
Proof.
  destruct broken_runs as (s & Hrun & HD).
  assert (unavailable s "D") as Hbad by (right; exists "IOError"; exact HD).
  assert ("D" ∈ required P) as Hreq by left.
  exists s. split; [exact Hrun|]. split; [reflexivity|].
  split; [exact Hreq|]. split; [exact Hbad|].
  exact (skipped_is_infectious broken no_observers s "P" P "D" Hrun eq_refl Hreq Hbad).
Defined.

End Scenarios.

End DrFacts.

(** ** Facts about the Python notions *)

Module PyFacts.
Import Py.

Lemma dict_get_set_eq {V} k (v : V) (d : dict V) :
  dict_get k (dict_set k v d) = Some v.
Proof.
  induction d as [|[k' v'] d IH]; simpl.
  - by rewrite bool_decide_eq_true_2.
  - case_bool_decide as Hk; simpl.
    + by rewrite bool_decide_eq_true_2.
    + by rewrite bool_decide_eq_false_2.
Qed.

Lemma dict_get_set_ne {V} k k' (v : V) (d : dict V) :
  k ≠ k' → dict_get k' (dict_set k v d) = dict_get k' d.
Proof.
  intros Hne. induction d as [|[k0 v0] d IH]; simpl.
  - by rewrite bool_decide_eq_false_2.
  - case_bool_decide as Hk; simpl.
    + subst k0. by rewrite !bool_decide_eq_false_2.
    + by rewrite IH.
Qed.

Lemma dict_get_keys {V} k (d : dict V) :
  is_Some (dict_get k d) ↔ k ∈ dict_keys d.
Proof.
  unfold dict_keys. induction d as [|[k' v'] d IH]; simpl.
  - split; [by intros [? ?] | by intros ?%elem_of_nil].
  - case_bool_decide as Hk.
    + split; [intros _; subst; left | by eauto].
    + rewrite IH, elem_of_cons. split; [by right | intros [?|?]; [congruence | done]].
Qed.

Lemma dict_keys_set_present {V} k (v : V) (d : dict V) :
  is_Some (dict_get k d) → dict_keys (dict_set k v d) = dict_keys d.
Proof.
  unfold dict_keys. induction d as [|[k' v'] d IH]; simpl.
  - by intros [? ?].
  - case_bool_decide as Hk; simpl; [by subst | intros Hs; f_equal; by apply IH].
Qed.

Lemma getitem_Ok {V} k (d : dict V) v : getitem k d = Ok v ↔ dict_get k d = Some v.
Proof.
  unfold getitem. destruct (dict_get k d); split; intros; simplify_eq; done.
Qed.

Lemma add_to_Ok k n d d' :
  add_to k n d = Ok d' →
  ∃ old, dict_get k d = Some old ∧ d' = dict_set k (old + n) d.
Proof.
  unfold add_to, getitem. destruct (dict_get k d) as [old|]; simpl; [|done].
  intros [= <-]. by exists old.
Qed.

Lemma add_to_count k n d d' k' :
  add_to k n d = Ok d' →
  dict_keys d' = dict_keys d ∧
  count_of k' d' = count_of k' d + (if bool_decide (k = k') then n else 0).
Proof.
  intros (old & Hold & ->)%add_to_Ok. split.
  - apply dict_keys_set_present. by eexists.
  - unfold count_of. case_bool_decide as Hk.
    + subst k'. by rewrite dict_get_set_eq, Hold.
    + rewrite dict_get_set_ne by done. lia.
Qed.

Lemma insert_by_perm {A} (key : A → string) x l : insert_by key x l ≡ₚ x :: l.
Proof.
  induction l as [|y l IH]; simpl; [done|].
  destruct (String.leb _ _); [done|]. rewrite IH. apply Permutation_swap.
Qed.

Lemma sorted_by_perm {A} (key : A → string) l : sorted_by key l ≡ₚ l.
Proof.
  induction l as [|x l IH]; simpl; [done|]. by rewrite insert_by_perm, IH.
Qed.

(** [l[2:-1]] drops the first two elements and the last one. *)
Lemma slice_2_m1 {A} (l : list A) : slice 2 (-1) l = removelast (drop 2 l).
Proof.
  unfold slice, slice_bound.
  rewrite (bool_decide_eq_false_2 (2 < 0)%Z) by lia.
  rewrite (bool_decide_eq_true_2 (-1 < 0)%Z) by lia.
  rewrite removelast_firstn_len, length_drop.
  destruct (decide (length l ≤ 2)) as [Hle|Hgt].
  - rewrite !drop_ge by lia. by rewrite !take_nil.
  - f_equal; [lia | f_equal; lia].
Qed.

Lemma slice_2_m1_short {A} (l : list A) : length l < 4 → slice 2 (-1) l = [].
Proof.
  intros Hl. apply length_zero_iff_nil.
  rewrite slice_2_m1, removelast_firstn_len, length_take, length_drop. lia.
Qed.

Lemma prefix_app needle hay :
  String.prefix needle hay = true ↔ ∃ post, hay = needle +:+ post.
Proof.
  revert hay. induction needle as [|c needle IH]; intros hay; simpl.
  - destruct hay; split; eauto.
  - destruct hay as [|d hay]; simpl.
    + split; [done | by intros [? ?]].
    + destruct (Ascii.ascii_dec c d) as [->|Hne].
      * rewrite IH. split; intros [post Hp]; exists post.
        -- by rewrite Hp.
        -- by injection Hp.
      * split; [done | intros [post Hp]; by injection Hp].
Qed.

Lemma contains_occurs needle hay :
  contains needle hay = true ↔ occurs_in needle hay.
Proof.
  unfold occurs_in. induction hay as [|d hay IH].
  - change (contains needle "") with (String.prefix needle "" || false).
    rewrite orb_false_r, prefix_app. split.
    + intros [post ->]. by exists "", post.
    + intros (pre & post & Hp). destruct pre; [by exists post|done].
  - change (contains needle (String d hay))
      with (String.prefix needle (String d hay) || contains needle hay).
    rewrite orb_true_iff, prefix_app, IH. split.
    + intros [[post ->]|(pre & post & ->)]; [by exists "", post|].
      by exists (String d pre), post.
    + intros (pre & post & Hp). destruct pre as [|e pre]; simpl in Hp.
      * left. by exists post.
      * right. injection Hp as -> ->. by exists pre, post.
Qed.

Lemma elem_of_insert_new x y l : y ∈ insert_new x l ↔ y = x ∨ y ∈ l.
Proof.
  induction l as [|z l IH]; simpl.
  - by rewrite list_elem_of_singleton, elem_of_nil; intuition.
  - destruct (String.compare x z) eqn:Hc.
    + apply String.compare_eq_iff in Hc as ->. rewrite elem_of_cons. intuition.
    + rewrite !elem_of_cons. intuition.
    + rewrite !elem_of_cons, IH. intuition.
Qed.

Lemma elem_of_sorted_set x l : x ∈ sorted_set l ↔ x ∈ l.
Proof.
  unfold sorted_set. induction l as [|y l IH]; simpl; [done|].
  rewrite elem_of_insert_new, IH, elem_of_cons. done.
Qed.

Lemma insert_new_HdRel x y l :
  String.compare y x = Lt → HdRel (λ a b, String.compare a b = Lt) y l →
  HdRel (λ a b, String.compare a b = Lt) y (insert_new x l).
Proof.
  intros Hyx Hl. destruct l as [|z l]; simpl; [by constructor|].
  destruct (String.compare x z); [done | by constructor |].
  constructor. by inversion Hl.
Qed.

Lemma insert_new_increasing x l : increasing l → increasing (insert_new x l).
Proof.
  unfold increasing. induction 1 as [|z l Hl IH Hz]; simpl.
  - by repeat constructor.
  - destruct (String.compare x z) eqn:Hc.
    + by constructor.
    + constructor; [by constructor | by constructor].
    + constructor; [done|]. apply insert_new_HdRel; [|done].
      by rewrite String.compare_antisym, Hc.
Qed.

Lemma sorted_set_increasing l : increasing (sorted_set l).
Proof.
  unfold sorted_set. induction l as [|x l IH]; simpl; [constructor|].
  by apply insert_new_increasing.
Qed.

End PyFacts.

(** ** Facts about insights/formats/text.py *)

Module TextFacts.
Import Py PyFacts Dr Text TextNotions.

Section Formatter.
Context `{Host}.
Implicit Types (self : HumanReadableFormat) (broker : Broker) (c : component)
  (v : pyval).

Lemma find_context_in_split items :
  (∃ before k v after,
      items = before ++ (k, v) :: after ∧
      isclass k = true ∧ is_execution_context k = true ∧
      Forall (λ kv, is_context_key kv = false) before ∧
      find_context_in items = v)
  ∨ (Forall (λ kv, is_context_key kv = false) items ∧ find_context_in items = VNone).
Proof.
  induction items as [|[k v] items IH]; simpl.
  { right. by split. }
  destruct (isclass k && is_execution_context k) eqn:Hk.
  - left. exists [], k, v, items. apply andb_true_iff in Hk as [? ?].
    by split_and!.
  - destruct IH as [(before & k' & v' & after & -> & ? & ? & ? & ?)|[? ?]].
    + left. exists ((k, v) :: before), k', v', after. split_and!; try done.
      by constructor.
    + right. split; [by constructor | done].
Qed.

(** C5: [_find_context] walks [broker.instances] and returns the value stored
    under the first key that is a class and a subclass of [ExecutionContext];
    when no key qualifies it returns [None]. *)
Theorem find_context_scans_instances broker :
  (∃ before k v after,
      instances broker = before ++ (k, v) :: after ∧
      isclass k = true ∧ is_execution_context k = true ∧
      Forall (λ kv, is_context_key kv = false) before ∧
      _find_context broker = v)
  ∨ (Forall (λ kv, is_context_key kv = false) (instances broker) ∧
     _find_context broker = VNone).
Proof. apply find_context_in_split. Qed.

(** **** Observers *)

Lemma matching_app (obs1 obs2 : Observers component Callback) c t :
  matching (obs1 ++ obs2) c t = matching obs1 c t ++ matching obs2 c t.
Proof. unfold matching, Observers. by rewrite filter_app, fmap_app. Qed.

(** [preprocess] registers [progress_bar] four times, each time with a
    capability tag as selector: rule, condition, incident and parser, in this
    order, and with no unit identity; these registrations select
    [progress_bar] once for a unit that carries one of the four tags, and not
    at all otherwise. *)
Lemma preprocess_registrations (opts : Options) broker :
  observers (preprocess opts broker).2 =
    observers broker ++ ((λ t, (ProgressBar, OnTag t)) <$> progress_tags) ∧
  ∀ c t, matching (observers (preprocess opts broker).2) c t =
         matching (observers broker) c t ++
         (if bool_decide (t ∈ progress_tags) then [ProgressBar] else []).
Proof.
  assert (observers (preprocess opts broker).2 =
          observers broker ++ ((λ t, (ProgressBar, OnTag t)) <$> progress_tags)) as Hobs.
  { simpl. unfold subscribe. by rewrite <- !app_assoc. }
  split; [done|]. intros c t. rewrite Hobs, matching_app. f_equal.
  unfold matching, progress_tags. by destruct t.
Qed.

(** **** The vocabulary *)

Lemma preprocess_prepared (opts : Options) broker : prepared (preprocess opts broker).1.
Proof. done. Qed.

Lemma handled_vocabulary self t :
  responses self = the_responses → handled self t ↔ t ∈ vocabulary.
Proof.
  intros Hr. unfold handled. rewrite Hr, dict_get_keys. done.
Qed.


(** **** Dropped files *)

Lemma paths_in_Ok items ps :
  paths_in items = Ok ps → ∀ p, p ∈ ps ↔ EProvider p ∈ items.
Proof.
  revert ps. induction items as [|d items IH]; intros ps; simpl.
  { intros [= <-] p. split; by intros ?%elem_of_nil. }
  destruct d as [q|]; simpl; [|done].
  destruct (paths_in items) as [qs|] eqn:Hqs; simpl; [|done].
  intros [= <-] p. rewrite !elem_of_cons, (IH qs eq_refl p).
  split; (intros [?|?]; [left; congruence | by right]).
Qed.

Lemma paths_of_Ok values vals :
  paths_of values = Ok vals →
  ∀ p, p ∈ vals ↔ ∃ v, v ∈ values ∧ provides v p.
Proof.
  revert vals. induction values as [|v values IH]; intros vals; simpl.
  { intros [= <-] p. split; [by intros ?%elem_of_nil|].
    by intros (v & ?%elem_of_nil & _). }
  destruct (match v with VList items => paths_in items | _ => _ end)
    as [here|] eqn:Hhere; simpl; [|done].
  destruct (paths_of values) as [more|] eqn:Hmore; simpl; [|done].
  intros [= <-] p. rewrite elem_of_app, (IH more eq_refl p).
  assert (p ∈ here ↔ provides v p) as ->.
  { unfold provides. destruct v as [|d|items|files|q|t]; simpl in Hhere;
      try discriminate.
    - rewrite (paths_in_Ok _ _ Hhere p). split; [by eauto|].
      by intros [?|(items' & [= <-] & ?)].
    - injection Hhere as <-. rewrite list_elem_of_singleton.
      split; [intros ->; by left | by intros [[= ->]|(? & ? & _)]]. }
  split.
  - intros [?|(w & ? & ?)]; [exists v; split; [left | done] | exists w; split; [by right | done]].
  - intros (w & [->|?]%elem_of_cons & ?); [by left | right; by exists w].
Qed.

(** C6: when [_find_context] yields a context whose [all_files] is a non
    empty list, [show_dropped] writes two entries to the stream, after what
    it already holds: the heading 'Dropped Files:' pretty printed with indent
    1 and, with indent 4, the set of the files of [all_files] that are the
    path of no datasource result held by the Broker (a list valued result
    counts with the path of each element); the counts are left alone.  When
    no context is found, or its [all_files] is [None] or empty, nothing is
    written: the formatter is returned as it was. *)
Theorem show_dropped_prints_difference self broker :
  (∀ files vals,
      _find_context broker = VContext (Some files) → files ≠ [] →
      paths_of (get_by_type datasource broker).*2 = Ok vals →
      ∃ self' (dropped_files : gset string),
        show_dropped self broker = Ok self' ∧
        stream self' =
          stream self ++ [ pformat 1 (PStr "Dropped Files:") +:+ nl;
                           pformat 4 (PSet dropped_files) +:+ nl ] ∧
        counts self' = counts self ∧
        ∀ f, f ∈ dropped_files ↔
             f ∈ files ∧
             ¬ ∃ c v, (c, v) ∈ get_by_type datasource broker ∧ provides v f) ∧
  (_find_context broker = VNone ∨ _find_context broker = VContext None ∨
   _find_context broker = VContext (Some []) →
   show_dropped self broker = Ok self).
Proof.
  split.
  - intros files vals Hctx Hfiles Hvals.
    exists (pprint 4 (PSet (list_to_set files ∖ list_to_set vals))
              (pprint 1 (PStr "Dropped Files:") self)),
           (list_to_set files ∖ list_to_set vals).
    split_and!.
    + unfold show_dropped. rewrite Hctx. simpl.
      destruct files as [|f files]; [done|]. simpl. by rewrite Hvals.
    + simpl. by rewrite <- app_assoc.
    + done.
    + intros f. rewrite elem_of_difference, !elem_of_list_to_set.
      rewrite (paths_of_Ok _ _ Hvals f). split; intros [Hf Hno]; (split; [done|]).
      * intros (c & v & Hcv & Hp). apply Hno. exists v. split; [|done].
        apply list_elem_of_fmap. by exists (c, v).
      * intros (v & Hv & Hp). apply Hno.
        apply list_elem_of_fmap in Hv as ([c v'] & -> & Hcv). by exists c, v'.
  - unfold show_dropped. by intros [->|[->| ->]].
Qed.

(** **** The description of the rules *)

Lemma same_setup_refl self : same_setup self self.
Proof. done. Qed.

Lemma same_setup_trans self1 self2 self3 :
  same_setup self1 self2 → same_setup self2 self3 → same_setup self1 self3.
Proof. unfold same_setup. intros (-> & -> & -> & ->) (-> & -> & -> & ->). done. Qed.

Lemma broker_getitem_Ok broker c v :
  broker_getitem broker c = Ok v → v = broker_get broker c.
Proof.
  unfold broker_getitem, broker_get.
  destruct (find _ _) as [kv|]; simpl; [by intros [= <-] | done].
Qed.

Lemma printit_Ok self c v self' :
  printit self c v = Ok self' →
  same_setup self self' ∧ counts self' = counts self ∧
  stream self' = stream self ++
    (if missing self || negb (is_skipped v) then block (responses self) c v else []).
Proof.
  unfold printit, block, is_skipped.
  destruct v as [|d| | | |]; simpl; try done.
  destruct (d !! "type") as [a|] eqn:Ha; simpl.
  2:{ intros [= <-]. split_and!; try done. by rewrite orb_true_r, app_nil_r. }
  destruct a as [|t|b|b]; simpl.
  - intros [= <-]. split_and!; try done. by rewrite orb_true_r, app_nil_r.
  - case_bool_decide as Ht; simpl.
    { intros [= <-]. split_and!; try done. subst t.
      rewrite bool_decide_eq_false_2 by done. simpl. rewrite orb_true_r.
      destruct (dict_get "" _); by rewrite app_nil_r. }
    unfold response_item. simpl.
    destruct (dict_get t (responses self)) as [resp|]; simpl; [|done].
    destruct (bool_decide (t = "skip")) eqn:Hs.
    + apply bool_decide_eq_true in Hs as ->.
      rewrite (bool_decide_eq_true_2 (Some "skip" = Some "skip")) by done. simpl.
      rewrite orb_false_r.
      destruct (missing self); simpl; intros [= <-]; split_and!; try done.
      * simpl. by rewrite <- !app_assoc.
      * by rewrite app_nil_r.
    + apply bool_decide_eq_false in Hs.
      rewrite (bool_decide_eq_false_2 (Some t = Some "skip")) by congruence. simpl.
      rewrite orb_true_r. intros [= <-]. split_and!; try done.
      simpl. by rewrite <- !app_assoc.
  - destruct b; simpl; [done|].
    intros [= <-]. split_and!; try done. by rewrite orb_true_r, app_nil_r.
  - destruct b; simpl; [done|].
    intros [= <-]. split_and!; try done. by rewrite orb_true_r, app_nil_r.
Qed.

Lemma count_rule_Ok self v self' :
  count_rule self v = Ok self' →
  same_setup self self' ∧ stream self' = stream self ∧
  dict_keys (counts self') = dict_keys (counts self) ∧
  ∀ k, handled self k →
       count_of k (counts self') =
       count_of k (counts self) + (if bool_decide (tag_of v = Some k) then 1 else 0).
Proof.
  unfold count_rule, handled.
  destruct v as [|d| | | |]; simpl; try done.
  destruct (d !! "type") as [a|] eqn:Ha; simpl; [|done].
  destruct (response_of (responses self) a) as [[resp|]|] eqn:Hresp; simpl; [| |done].
  - destruct a as [|t|b|b]; simpl in Hresp; try done. simpl.
    destruct (add_to t 1 (counts self)) as [cs|] eqn:Hcs; simpl; [|done].
    intros [= <-]. simpl. split_and!; try done.
    + by destruct (add_to_count _ _ _ _ t Hcs).
    + intros k _. destruct (add_to_count _ _ _ _ k Hcs) as [_ ->].
      f_equal. repeat case_bool_decide; congruence.
  - intros [= <-]. split_and!; try done. intros k [r Hk].
    rewrite bool_decide_eq_false_2; [lia|].
    destruct a as [|t|b|b]; try done. intros [= ->]. simpl in Hresp. congruence.
Qed.

Lemma describe_rules_Ok broker rules self self' :
  describe_rules self broker rules = Ok self' →
  same_setup self self' ∧
  stream self' = stream self ++ blocks (missing self) (responses self) broker rules ∧
  dict_keys (counts self') = dict_keys (counts self) ∧
  ∀ k, handled self k →
       count_of k (counts self') = count_of k (counts self) + tagged broker k rules.
Proof.
  revert self. induction rules as [|c rules IH]; intros self; simpl.
  { intros [= <-]. split_and!; try done.
    unfold blocks. simpl. by rewrite app_nil_r. }
  destruct (broker_getitem broker c) as [v|] eqn:Hv; simpl; [|done].
  apply broker_getitem_Ok in Hv as ->. set (v := broker_get broker c).
  destruct (count_rule self v) as [self1|] eqn:H1; simpl; [|done].
  destruct (printit self1 c v) as [self2|] eqn:H2; simpl; [|done].
  intros H3.
  destruct (count_rule_Ok _ _ _ H1) as (Hs1 & Hst1 & Hk1 & Hc1).
  destruct (printit_Ok _ _ _ _ H2) as (Hs2 & Hcs2 & Hst2).
  destruct (IH _ H3) as (Hs3 & Hst3 & Hk3 & Hc3).
  pose proof (same_setup_trans _ _ _ Hs1 Hs2) as Hs12.
  pose proof Hs1 as (Hm1 & _ & _ & Hr1). pose proof Hs12 as (Hm12 & _ & _ & Hr12).
  split_and!.
  - by eapply same_setup_trans.
  - rewrite Hst3, Hst2, Hst1, Hm12, Hr12, Hm1, Hr1, <- app_assoc. f_equal.
    unfold blocks. rewrite filter_cons. fold v.
    destruct (decide _) as [Hvis|Hvis].
    + by rewrite Hvis.
    + apply not_true_is_false in Hvis. by rewrite Hvis.
  - by rewrite Hk3, Hcs2, Hk1.
  - intros k Hk. rewrite Hc3, Hcs2, Hc1; try done.
    2:{ unfold handled in *. by rewrite Hr12. }
    unfold tagged. rewrite filter_cons. fold v.
    destruct (decide _) as [Ht|Ht].
    + rewrite bool_decide_eq_true_2 by done. simpl. lia.
    + rewrite bool_decide_eq_false_2 by done. simpl. lia.
Qed.

Lemma dict_get_count_of k (cs : dict nat) :
  k ∈ dict_keys cs → dict_get k cs = Some (count_of k cs).
Proof.
  intros [n Hn]%dict_get_keys. unfold count_of. by rewrite Hn.
Qed.

Lemma print_summary_Ok self keys :
  (∀ k, k ∈ keys → handled self k ∧ k ∈ dict_keys (counts self)) →
  ∃ self', print_summary self keys = Ok self' ∧
    same_setup self self' ∧ counts self' = counts self ∧
    stream self' = stream self ++ (summary_text (responses self) (counts self) <$> keys).
Proof.
  revert self. induction keys as [|k keys IH]; intros self Hkeys; simpl.
  { exists self. split_and!; try done. by rewrite app_nil_r. }
  destruct (Hkeys k ltac:(left)) as [[r Hr] Hk].
  unfold summary_line, getitem. rewrite Hr, (dict_get_count_of _ _ Hk). simpl.
  destruct (IH (print (color r +:+ title r +:+ pretty (count_of k (counts self))
                       +:+ RESET_ALL Fore) self)) as (self' & -> & Hs & Hc & Hst).
  { intros k' Hk'. apply Hkeys. by right. }
  exists self'. split_and!; try done.
  rewrite Hst. simpl. rewrite <- app_assoc. simpl. do 2 f_equal.
  unfold summary_text. by rewrite Hr.
Qed.

Lemma tagged_sorted broker k :
  tagged broker k (sorted_rules broker) = tally k broker.
Proof.
  unfold tagged, tally, sorted_rules. apply Permutation_length.
  by rewrite sorted_by_perm.
Qed.

(** What [show_description] does to a prepared formatter. *)
Lemma show_description_Ok self broker self' :
  prepared self → show_description self broker = Ok self' →
  prepared self' ∧ same_setup self self' ∧
  (∀ k, k ∈ vocabulary → count_of k (counts self') = count_of k (counts self) + tally k broker) ∧
  stream self' =
    stream self ++ blocks (missing self) the_responses broker (sorted_rules broker)
    ++ [nl] ++ header_lines "Rule Execution Summary" (CYAN Fore)
    ++ (summary_text the_responses (counts self') <$> vocabulary).
Proof.
  intros [Hresp Hkeys]. unfold show_description.
  destruct (describe_rules self broker (sorted_rules broker)) as [self1|] eqn:H1;
    simpl; [|done].
  destruct (describe_rules_Ok _ _ _ _ H1) as (Hs1 & Hst1 & Hk1 & Hc1).
  set (self2 := print_header _ _ _).
  destruct (print_summary_Ok self2 (dict_keys (counts self1)))
    as (self3 & -> & Hs3 & Hc3 & Hst3).
  { intros k Hk. split; [|done]. unfold handled. simpl.
    destruct Hs1 as (_ & _ & _ & ->). rewrite Hresp. apply dict_get_keys.
    by rewrite Hk1, Hkeys in Hk. }
  intros [= <-]. destruct Hs1 as (Hm1 & Ht1 & Hd1 & Hr1).
  destruct Hs3 as (Hm3 & Ht3 & Hd3 & Hr3). simpl in *.
  split_and!.
  - split; [by rewrite Hr3, Hr1 | by rewrite Hc3, Hk1].
  - unfold same_setup. by rewrite Hm3, Ht3, Hd3, Hr3.
  - intros k Hk. rewrite Hc3, Hc1, tagged_sorted; [done|].
    by apply handled_vocabulary.
  - rewrite Hst3, Hst1, Hc3, Hk1, Hkeys, Hr1, Hresp.
    by rewrite <- !app_assoc.
Qed.

Lemma blocks_all rs broker rules :
  blocks true rs broker rules = flat_map (λ c, block rs c (broker_get broker c)) rules.
Proof.
  unfold blocks. f_equal. induction rules as [|c rules IH]; [done|].
  rewrite filter_cons_True by done. by f_equal.
Qed.

Lemma blocks_hide_skipped rs broker rules :
  blocks false rs broker rules =
  flat_map (λ c, block rs c (broker_get broker c))
    (filter (λ c, is_skipped (broker_get broker c) = false) rules).
Proof.
  unfold blocks. f_equal. apply list_filter_iff. intros c. simpl.
  by destruct (is_skipped _).
Qed.

(** C10: with [missing=False], [show_description] prints the name and detail
    block of every rule except those whose result type is 'skip'; these are
    still counted, and the count appears in the Missing Deps line of the Rule
    Execution Summary.  With [missing=True] the block of every rule is
    printed, skipped ones included. *)
Theorem skipped_rules_hidden_unless_missing self broker self' :
  prepared self → show_description self broker = Ok self' →
  count_of "skip" (counts self') = count_of "skip" (counts self) + tally "skip" broker ∧
  stream self' =
    stream self
    ++ flat_map (λ c, block the_responses c (broker_get broker c))
         (if missing self then sorted_rules broker
          else filter (λ c, is_skipped (broker_get broker c) = false) (sorted_rules broker))
    ++ [nl] ++ header_lines "Rule Execution Summary" (CYAN Fore)
    ++ (summary_text the_responses (counts self') <$> vocabulary) ∧
  summary_text the_responses (counts self') "skip" =
    (BLUE Fore +:+ "Missing Deps: "
     +:+ pretty (count_of "skip" (counts self) + tally "skip" broker)
     +:+ RESET_ALL Fore) +:+ nl.
Proof.
  intros Hprep Hshow.
  destruct (show_description_Ok _ _ _ Hprep Hshow) as (_ & _ & Hcount & Hstream).
  assert ("skip" ∈ vocabulary) as Hskip by left.
  split_and!.
  - by apply Hcount.
  - rewrite Hstream. do 2 f_equal.
    destruct (missing self); [apply blocks_all | apply blocks_hide_skipped].
  - unfold summary_text. simpl. by rewrite (Hcount _ Hskip).
Qed.

(** **** Counting over a whole run *)

Lemma progress_bar_Ok self c broker self' :
  progress_bar self c broker = Ok self' →
  same_setup self self' ∧ dict_keys (counts self') = dict_keys (counts self) ∧
  ∀ k, count_of k (counts self') =
       count_of k (counts self) +
       (if bool_decide (k = "exception") then captured (c, broker) else 0).
Proof.
  unfold progress_bar, captured. simpl.
  destruct (truthy _ && is_dict _ && has_type _).
  - destruct (type_item _) as [t|]; simpl; [|done].
    destruct (response_of _ _) as [[r|]|]; simpl; [| |done];
      intros [= <-]; split_and!; try done;
      intros k; case_bool_decide; simpl; lia.
  - destruct (exceptions_of broker c) as [excs|]; simpl.
    + destruct (add_to _ _ _) as [cs|] eqn:Hcs; simpl; [|done].
      intros [= <-]. simpl. split_and!; try done.
      * by destruct (add_to_count _ _ _ _ "exception" Hcs).
      * intros k. destruct (add_to_count _ _ _ _ k Hcs) as [_ ->].
        f_equal. repeat case_bool_decide; congruence.
    + intros [= <-]. split_and!; try done. intros k. case_bool_decide; simpl; lia.
Qed.

Lemma notifications_Ok self events self' :
  notifications self events = Ok self' →
  same_setup self self' ∧ dict_keys (counts self') = dict_keys (counts self) ∧
  ∀ k, count_of k (counts self') =
       count_of k (counts self) +
       (if bool_decide (k = "exception") then sum_list (captured <$> events) else 0).
Proof.
  revert self. induction events as [|[c broker] events IH]; intros self; simpl.
  { intros [= <-]. split_and!; try done. intros k. case_bool_decide; lia. }
  destruct (progress_bar self c broker) as [self1|] eqn:H1; simpl; [|done].
  intros H2. destruct (progress_bar_Ok _ _ _ _ H1) as (Hs1 & Hk1 & Hc1).
  destruct (IH _ H2) as (Hs2 & Hk2 & Hc2). split_and!.
  - by eapply same_setup_trans.
  - by rewrite Hk2.
  - intros k. rewrite Hc2, Hc1. case_bool_decide; [|lia].
    symmetry. apply Nat.add_assoc.
Qed.

Lemma show_tracebacks_keeps self broker :
  same_setup self (show_tracebacks self broker) ∧
  counts (show_tracebacks self broker) = counts self.
Proof.
  unfold show_tracebacks. destruct (broker_tracebacks broker) as [|tb tbs]; [done|].
  generalize ((tb :: tbs).*2). intros lines.
  assert (∀ s0, same_setup s0 (foldl (λ s t, print t s) s0 lines) ∧
                counts (foldl (λ s t, print t s) s0 lines) = counts s0) as Hfold.
  { induction lines as [|t lines IH]; intros s0; simpl; [done|].
    destruct (IH (print t s0)) as [Hs ->]. split; [|done].
    eapply same_setup_trans; [|exact Hs]. done. }
  destruct (Hfold (print "Tracebacks:" (print_blank self))) as [Hs ->].
  split; [|done]. eapply same_setup_trans; [|exact Hs]. done.
Qed.

Lemma show_dropped_keeps self broker self' :
  show_dropped self broker = Ok self' →
  same_setup self self' ∧ counts self' = counts self.
Proof.
  unfold show_dropped. destruct (truthy _); [|by intros [= <-]].
  destruct (all_files_of _) as [files|]; simpl; [|done].
  destruct (files_truthy files); [|by intros [= <-]].
  destruct (paths_of _); simpl; [|done]. by intros [= <-].
Qed.

Lemma postprocess_Ok self broker self' :
  prepared self → postprocess self broker = Ok self' →
  same_setup self self' ∧
  (∀ k, k ∈ vocabulary → count_of k (counts self') = count_of k (counts self) + tally k broker) ∧
  ∃ before, stream self' = before ++ (summary_text the_responses (counts self') <$> vocabulary).
Proof.
  intros [Hresp Hkeys]. unfold postprocess.
  set (self1 := if tracebacks self then _ else _).
  assert (same_setup self self1 ∧ counts self1 = counts self) as [Hs1 Hc1].
  { unfold self1. destruct (tracebacks self); [apply show_tracebacks_keeps | done]. }
  destruct (if dropped self1 then _ else _) as [self2|] eqn:H2; simpl; [|done].
  assert (same_setup self1 self2 ∧ counts self2 = counts self1) as [Hs2 Hc2].
  { destruct (dropped self1); [by apply (show_dropped_keeps _ broker) | by injection H2 as <-]. }
  set (self3 := print_header _ _ _). intros H3.
  pose proof (same_setup_trans _ _ _ Hs1 Hs2) as Hs12.
  assert (prepared self3) as Hprep3.
  { destruct Hs12 as (_ & _ & _ & Hr). split; simpl; [by rewrite Hr | by rewrite Hc2, Hc1]. }
  destruct (show_description_Ok _ _ _ Hprep3 H3) as (_ & Hs3 & Hcount & Hstream).
  split_and!.
  - eapply same_setup_trans; [exact Hs12|]. eapply same_setup_trans; [|exact Hs3]. done.
  - intros k Hk. rewrite (Hcount k Hk). simpl. by rewrite Hc2, Hc1.
  - eexists. rewrite Hstream, !app_assoc. done.
Qed.

(** C4, as amended: after a run, every count of the Rule Execution Summary
    is the number of rule results of the final Broker that carry the tag,
    except the exception count, which is that number plus the number of
    exceptions the Broker held for each component [progress_bar] was notified
    about and that had no typed result. *)
Theorem session_counts (opts : Options) broker0 events final self' :
  session opts broker0 events final = Ok self' →
  (∀ k, k ∈ vocabulary → count_of k (counts self') = final_count events final k) ∧
  ∃ before,
    stream self' = before ++
      ((λ kr : string * response,
          (color kr.2 +:+ title kr.2 +:+ pretty (final_count events final kr.1)
           +:+ RESET_ALL Fore) +:+ nl) <$> the_responses).
Proof.
  unfold session.
  destruct (notifications _ events) as [self1|] eqn:H1; simpl; [|done].
  intros H2. destruct (notifications_Ok _ _ _ H1) as (Hs1 & Hk1 & Hc1).
  assert (prepared self1) as Hprep1.
  { destruct Hs1 as (_ & _ & _ & Hr). split; [by rewrite Hr | by rewrite Hk1]. }
  destruct (postprocess_Ok _ _ _ Hprep1 H2) as (_ & Hcount & before & Hstream).
  assert (∀ k, k ∈ vocabulary → count_of k (counts self') = final_count events final k)
    as Hfinal.
  { intros k Hk. rewrite (Hcount k Hk), Hc1. unfold final_count.
    assert (count_of k (counts (preprocess opts broker0).1) = 0) as ->.
    { simpl. unfold vocabulary in Hk.
      repeat (apply elem_of_cons in Hk as [->|Hk]; [done|]). by apply elem_of_nil in Hk. }
    lia. }
  split; [done|]. exists before. rewrite Hstream. f_equal.
  unfold summary_text, vocabulary. simpl.
  rewrite !Hfinal by (unfold vocabulary; repeat constructor). done.
Qed.

(** **** The formatter does not raise on well tagged results *)

Lemma prepared_same_setup self self' :
  prepared self → same_setup self self' →
  dict_keys (counts self') = dict_keys (counts self) → prepared self'.
Proof.
  intros [Hr Hk] (_ & _ & _ & Hr') Hk'. split; [by rewrite Hr' | by rewrite Hk'].
Qed.

Lemma progress_bar_total self c broker :
  prepared self → hashable_type (broker_get broker c) = true →
  is_ok (progress_bar self c broker) = true.
Proof.
  intros [Hr Hk] Hhash. unfold progress_bar.
  destruct (truthy _ && is_dict _ && has_type _) eqn:Hv.
  - apply andb_true_iff in Hv as [_ Hv]. unfold has_type in Hv.
    destruct (broker_get broker c) as [|d| | | |]; try done. simpl.
    apply andb_true_iff in Hv as [_ [a Ha]%bool_decide_eq_true].
    simpl in Hhash. rewrite Ha in Hhash. rewrite Ha. simpl.
    destruct a as [|t|b|b]; simpl; try done.
    by destruct (dict_get t (responses self)).
  - destruct (exceptions_of broker c) as [excs|]; [|done]. simpl.
    unfold add_to, getitem.
    assert (is_Some (dict_get "exception" (counts self))) as [n ->]; [|done].
    apply dict_get_keys. rewrite Hk. unfold vocabulary. repeat constructor.
Qed.

Lemma notifications_total self events :
  prepared self → hashable_events events → is_ok (notifications self events) = true.
Proof.
  revert self.
  induction events as [|[c broker] events IH]; intros self Hprep Hhash; simpl; [done|].
  apply Forall_cons in Hhash as [Hc Hhash]. simpl in Hc.
  pose proof (progress_bar_total self c broker Hprep Hc) as Hok.
  destruct (progress_bar self c broker) as [self1|] eqn:H1; [|done]. simpl.
  apply IH; [|done]. destruct (progress_bar_Ok _ _ _ _ H1) as (Hs & Hk & _).
  by eapply prepared_same_setup.
Qed.

Lemma broker_getitem_key broker c t :
  c ∈ (get_by_type t broker).*1 → broker_getitem broker c = Ok (broker_get broker c).
Proof.
  intros ([c' v] & -> & [_ Hin]%list_elem_of_filter)%list_elem_of_fmap.
  unfold broker_getitem, broker_get. simpl.
  destruct (find _ _) as [kv|] eqn:Hfind; [done|].
  apply find_none with (x := (c', v)) in Hfind.
  - simpl in Hfind. by rewrite bool_decide_eq_true_2 in Hfind.
  - by apply list_elem_of_In.
Qed.

Lemma describe_rules_total self broker rules :
  prepared self →
  (∀ c, c ∈ rules →
        broker_getitem broker c = Ok (broker_get broker c) ∧
        well_tagged (broker_get broker c)) →
  is_ok (describe_rules self broker rules) = true.
Proof.
  revert self. induction rules as [|c rules IH]; intros self Hprep Hrules; simpl; [done|].
  destruct (Hrules c ltac:(left)) as [-> (d & t & Hv & Ht & Hvoc)]. simpl.
  pose proof Hprep as [Hr Hk].
  assert (is_Some (dict_get t (responses self))) as [resp Hresp].
  { apply dict_get_keys. by rewrite Hr. }
  assert (is_Some (dict_get t (counts self))) as [n Hn].
  { apply dict_get_keys. by rewrite Hk. }
  destruct (count_rule self (broker_get broker c)) as [self1|] eqn:H1.
  2:{ unfold count_rule in H1. rewrite Hv in H1. simpl in H1. rewrite Ht in H1.
      simpl in H1. rewrite Hresp in H1. unfold add_to, getitem in H1.
      by rewrite Hn in H1. }
  simpl. destruct (count_rule_Ok _ _ _ H1) as (Hs1 & _ & Hk1 & _).
  pose proof (prepared_same_setup _ _ Hprep Hs1 Hk1) as Hprep1.
  destruct (printit self1 c (broker_get broker c)) as [self2|] eqn:H2.
  2:{ unfold printit in H2. rewrite Hv in H2. simpl in H2. rewrite Ht in H2.
      simpl in H2. destruct Hs1 as (_ & _ & _ & Hr1).
      unfold response_item in H2. simpl in H2. rewrite Hr1, Hresp in H2. simpl in H2.
      case_bool_decide; simpl in H2; [done|]. by destruct (_ || _). }
  simpl. destruct (printit_Ok _ _ _ _ H2) as (Hs2 & Hc2 & _).
  apply IH.
  - eapply prepared_same_setup; [exact Hprep1 | exact Hs2 | by rewrite Hc2].
  - intros c' Hc'. apply Hrules. by right.
Qed.

Lemma show_description_total self broker :
  prepared self → rules_well_tagged broker →
  is_ok (show_description self broker) = true.
Proof.
  intros Hprep Hrules. unfold show_description.
  assert (∀ c, c ∈ sorted_rules broker → c ∈ (get_by_type rule broker).*1) as Hsorted.
  { intros c. unfold sorted_rules. by rewrite sorted_by_perm. }
  pose proof (describe_rules_total self broker (sorted_rules broker) Hprep) as Hok.
  destruct (describe_rules self broker (sorted_rules broker)) as [self1|] eqn:H1.
  2:{ apply Hok. intros c Hc. split; [by eapply broker_getitem_key, Hsorted | by apply Hrules, Hsorted]. }
  simpl. destruct (describe_rules_Ok _ _ _ _ H1) as (Hs1 & _ & Hk1 & _).
  destruct Hprep as [Hr Hk].
  destruct (print_summary_Ok
              (print_header "Rule Execution Summary" (CYAN Fore) (print_blank self1))
              (dict_keys (counts self1))) as (self' & -> & _); [|done].
  intros k Hk'. split; [|done]. unfold handled. simpl.
  destruct Hs1 as (_ & _ & _ & ->). rewrite Hr. apply dict_get_keys.
  by rewrite Hk1, Hk in Hk'.
Qed.

(** A run without the dropped files option, over notified results with a
    hashable type and well tagged rule results, is rendered to the end. *)
Lemma session_total (opts : Options) broker0 events final :
  opt_dropped opts = false → hashable_events events → rules_well_tagged final →
  is_ok (session opts broker0 events final) = true.
Proof.
  intros Hdrop Hhash Hrules. unfold session.
  pose proof (notifications_total _ events (preprocess_prepared opts broker0) Hhash) as Hok.
  destruct (notifications _ events) as [self1|] eqn:H1; [|done]. simpl.
  destruct (notifications_Ok _ _ _ H1) as (Hs1 & Hk1 & _).
  pose proof (prepared_same_setup _ _ (preprocess_prepared opts broker0) Hs1 Hk1) as Hprep1.
  unfold postprocess.
  set (self2 := if tracebacks self1 then _ else _).
  assert (same_setup self1 self2 ∧ counts self2 = counts self1) as [Hs2 Hc2].
  { unfold self2. destruct (tracebacks self1); [apply show_tracebacks_keeps | done]. }
  assert (dropped self2 = false) as ->.
  { destruct Hs2 as (_ & _ & -> & _). by destruct Hs1 as (_ & _ & -> & _). }
  simpl. apply show_description_total; [|done].
  destruct Hprep1 as [Hr Hk]. destruct Hs2 as (_ & _ & _ & Hr2).
  split; simpl; [by rewrite Hr2 | by rewrite Hc2].
Qed.

End Formatter.

(** *** Examples on the demo host *)

Section Examples.
Import Demo.


Example progress_bar_fired :
  progress_bar (fresh false) report_a broker_done = Ok (write "F" (fresh false)).
Proof. vm_compute. reflexivity. Qed.

(** C4 as stated fails: a parser that raised once makes the summary print an
    exception count of 1 although no rule result is tagged 'exception'. *)
Lemma exception_count_counterexample :
  ∃ self',
    session (options false) empty_broker [(Uname, broker_parser_failed)]
      broker_parser_failed = Ok self' ∧
    count_of "exception" (counts self') = 1 ∧
    tally "exception" broker_parser_failed = 0 ∧
    last (stream self') = Some ("Exceptions  : 1" +:+ nl).
Proof. eexists. split_and!; vm_compute; reflexivity. Qed.

Lemma session_counts_witness :
  ∃ self',
    session (options false) empty_broker [(report_a, broker_done)] broker_done = Ok self' ∧
    (∀ k, k ∈ vocabulary →
       count_of k (counts self') = final_count [(report_a, broker_done)] broker_done k) ∧
    ∃ before,
      stream self' = before ++
        ((λ kr : string * response,
            (color kr.2 +:+ title kr.2
             +:+ pretty (final_count [(report_a, broker_done)] broker_done kr.1)
             +:+ RESET_ALL Fore) +:+ nl) <$> the_responses).
Proof.
  destruct (is_ok_Ok (session (options false) empty_broker [(report_a, broker_done)]
                        broker_done)) as [self' Hrun]; [vm_compute; reflexivity|].
  exists self'. split; [exact Hrun|].
  exact (session_counts (options false) empty_broker [(report_a, broker_done)]
           broker_done self' Hrun).
Defined.

Lemma skipped_rules_hidden_witness :
  ∃ self',
    prepared (fresh false) ∧ show_description (fresh false) broker_done = Ok self' ∧
    count_of "skip" (counts self') = count_of "skip" (counts (fresh false)) + tally "skip" broker_done ∧
    stream self' =
      stream (fresh false)
      ++ flat_map (λ c, block the_responses c (broker_get broker_done c))
           (if missing (fresh false) then sorted_rules broker_done
            else filter (λ c, is_skipped (broker_get broker_done c) = false)
                   (sorted_rules broker_done))
      ++ [nl] ++ header_lines "Rule Execution Summary" (CYAN Fore)
      ++ (summary_text the_responses (counts self') <$> vocabulary) ∧
    summary_text the_responses (counts self') "skip" =
      (BLUE Fore +:+ "Missing Deps: "
       +:+ pretty (count_of "skip" (counts (fresh false)) + tally "skip" broker_done)
       +:+ RESET_ALL Fore) +:+ nl.
Proof.
  destruct (is_ok_Ok (show_description (fresh false) broker_done)) as [self' Hshow];
    [vm_compute; reflexivity|].
  exists self'. split; [exact (preprocess_prepared (options false) empty_broker)|].
  split; [exact Hshow|].
  exact (skipped_rules_hidden_unless_missing (fresh false) broker_done self'
           (preprocess_prepared (options false) empty_broker) Hshow).
Defined.

(** The run of the demo: the skipped rule is counted and not described. *)
Example skipped_rule_not_described :
  (λ r, match r with Ok self' => drop 3 (stream self') | Err _ => [] end)
    (show_description (fresh false) broker_done) =
  [ "[FAIL] report_a" +:+ nl; "--------" +:+ nl; "<report_a>" +:+ nl; nl; nl;
    "----------------------" +:+ nl; "Rule Execution Summary" +:+ nl;
    "----------------------" +:+ nl;
    "Missing Deps: 1" +:+ nl; "Passed      : 0" +:+ nl; "Fingerprint : 0" +:+ nl;
    "Failed      : 1" +:+ nl; "Metadata    : 0" +:+ nl; "Metadata Key: 0" +:+ nl;
    "Exceptions  : 0" +:+ nl ].
Proof. vm_compute. reflexivity. Qed.

Example skipped_rule_described_on_request :
  (λ r, match r with Ok self' => take 8 (drop 3 (stream self')) | Err _ => [] end)
    (show_description (fresh true) broker_done) =
  [ "[FAIL] report_a" +:+ nl; "--------" +:+ nl; "<report_a>" +:+ nl; nl;
    "[SKIP] report_b" +:+ nl; "--------" +:+ nl; "<report_b>" +:+ nl; nl ].
Proof. vm_compute. reflexivity. Qed.

Lemma show_dropped_witness :
  _find_context broker_done = VContext (Some archive_files) ∧ archive_files ≠ [] ∧
  paths_of (get_by_type datasource broker_done).*2 =
    Ok ["/etc/hostname"; "/var/log/messages"] ∧
  ∃ self' (dropped_files : gset string),
    show_dropped (fresh false) broker_done = Ok self' ∧
    stream self' =
      stream (fresh false) ++ [ pformat 1 (PStr "Dropped Files:") +:+ nl;
                                pformat 4 (PSet dropped_files) +:+ nl ] ∧
    counts self' = counts (fresh false) ∧
    ∀ f, f ∈ dropped_files ↔
         f ∈ archive_files ∧
         ¬ ∃ c v, (c, v) ∈ get_by_type datasource broker_done ∧ provides v f.
Proof.
  split; [reflexivity|]. split; [discriminate|]. split; [reflexivity|].
  exact (proj1 (show_dropped_prints_difference (fresh false) broker_done)
           archive_files ["/etc/hostname"; "/var/log/messages"]
           eq_refl ltac:(discriminate) eq_refl).
Defined.

Example dropped_files_printed :
  (λ r, match r with Ok self' => drop 3 (stream self') | Err _ => [] end)
    (show_dropped (fresh false) broker_done) =
  [ "'Dropped Files:'" +:+ nl; "{/etc/motd}" +:+ nl ].
Proof. vm_compute. reflexivity. Qed.

End Examples.
End TextFacts.

(** ** Facts about insights/parsers/lssap.py *)

Module LssapFacts.
Import Py PyFacts Lssap.

Section Parser.
Variable parse_delimited_table : list string → list row.
Variable repr : list string → string.

Local Abbreviation parse_content := (parse_content parse_delimited_table repr).

Lemma parse_content_guard content :
  parse_content content =
  match removelast (drop 2 content) with
  | first :: rest =>
      if contains "SID" first
      then parse_content content
      else Err (unparsable repr content)
  | [] => Err (unparsable repr content)
  end.
Proof.
  unfold Lssap.parse_content. rewrite slice_2_m1.
  destruct (removelast (drop 2 content)) as [|first rest]; simpl; [done|].
  by destruct (contains "SID" first).
Qed.

(** C8: [parse_content] raises exactly when [content[2:-1]], the content
    without its first two lines and its last line, is empty or starts with a
    line in which 'SID' does not occur, and what it raises is the
    ParseException; so fewer than four lines always raise.  On success [data]
    is the table read from that slice, [sid] the distinct SID cells in
    increasing order, [instances] the Instance cells in the order of the rows
    and [instance_types] the distinct instances without their trailing
    digits, in increasing order. *)
Theorem parse_content_raises_iff content :
  let clean_content := removelast (drop 2 content) in
  (is_ok (parse_content content) = false ↔
     clean_content = [] ∨
     ∃ first rest, clean_content = first :: rest ∧ ¬ occurs_in "SID" first) ∧
  (∀ e, parse_content content = Err e → e = unparsable repr content) ∧
  (length content < 4 → parse_content content = Err (unparsable repr content)) ∧
  (∀ self, parse_content content = Ok self →
     data self = parse_delimited_table clean_content ∧
     increasing (sid self) ∧
     (∀ x, x ∈ sid self ↔ ∃ r : row, r ∈ data self ∧ r !! "SID" = Some x) ∧
     instances self = omap (λ r : row, r !! "Instance") (data self) ∧
     increasing (instance_types self) ∧
     (∀ t, t ∈ instance_types self ↔
           ∃ i, i ∈ instances self ∧ t = rstrip "1234567890" i)).
Proof.
  intros clean_content. split_and!.
  - unfold Lssap.parse_content. rewrite slice_2_m1. fold clean_content.
    destruct clean_content as [|first rest]; simpl.
    { split; [by left | done]. }
    destruct (contains "SID" first) eqn:Hsid; simpl.
    + split; [done|]. intros [?|(f & r & [= <- <-] & Hno)]; [done|].
      destruct Hno. by apply contains_occurs.
    + split; [|done]. intros _. right. exists first, rest. split; [done|].
      rewrite <- contains_occurs. by rewrite Hsid.
  - intros e. unfold Lssap.parse_content. destruct (_ && _); [done | by intros [= <-]].
  - intros Hlen. unfold Lssap.parse_content. by rewrite slice_2_m1_short.
  - intros self. unfold Lssap.parse_content. rewrite slice_2_m1. fold clean_content.
    destruct (_ && _); [|done]. intros [= <-]. simpl. split_and!; try done.
    + apply sorted_set_increasing.
    + intros x. rewrite elem_of_sorted_set, list_elem_of_omap. done.
    + apply sorted_set_increasing.
    + intros t. rewrite elem_of_sorted_set, list_elem_of_fmap.
      split; intros (i & ? & ?); by exists i.
Qed.

(** **** version *)

Lemma version_keeps_self (self : Lssap) instance : (version self instance).1 = self.
Proof. done. Qed.

(** When every row has an Instance cell and the first matching row has a
    Version cell, [version] behaves as its docstring says. *)
Lemma version_in_found rows instance before r v :
  first_match rows instance before r →
  Forall (λ r' : row, is_Some (r' !! "Instance")) before →
  r !! "Version" = Some v →
  version_in rows instance = Ok (Some v).
Proof.
  intros (after & -> & Hr & Hbefore) Hinst Hv.
  induction before as [|r0 before IH]; simpl.
  - by rewrite Hr, bool_decide_eq_true_2, Hv.
  - apply Forall_cons in Hbefore as [Hr0 Hbefore].
    apply Forall_cons in Hinst as [[i Hi] Hinst].
    rewrite Hi, bool_decide_eq_false_2 by congruence. by apply IH.
Qed.

Lemma version_in_not_found rows instance :
  Forall (λ r : row, ∃ i, r !! "Instance" = Some i ∧ i ≠ instance) rows →
  version_in rows instance = Ok None.
Proof.
  induction 1 as [|r rows (i & Hi & Hne) _ IH]; simpl; [done|].
  by rewrite Hi, bool_decide_eq_false_2.
Qed.

(** A row without an Instance cell that comes before any match makes
    [version] raise. *)
Lemma version_in_missing_cell rows instance before r after :
  rows = before ++ r :: after →
  Forall (λ r' : row, ∃ i, r' !! "Instance" = Some i ∧ i ≠ instance) before →
  r !! "Instance" = None →
  version_in rows instance = Err (KeyError "Instance").
Proof.
  intros -> Hbefore Hr. induction Hbefore as [|r0 before (i & Hi & Hne) _ IH]; simpl.
  - by rewrite Hr.
  - by rewrite Hi, bool_decide_eq_false_2.
Qed.

End Parser.

(** *** The table of the module docstring *)

Example docstring_examples :
  match parsed lssap_output with
  | Ok lssap =>
      instances lssap = ["D16"; "D22"; "D50"; "D51"] ∧
      (version lssap "D51").2 = Ok (Some "749, patch 10, changelist 1698137") ∧
      is_hana lssap = false ∧
      (data lssap !! 3) ≫= (λ r : row, r !! "Instance") = Some "D51"
  | Err _ => False
  end.
Proof. vm_compute. by repeat split. Qed.

Example three_lines_raise : is_ok (parsed (take 3 lssap_output)) = false.
Proof. vm_compute. reflexivity. Qed.

(** C9 fails on a table with a short row: the content parses, [data] holds
    a row without an Instance cell, and [version] raises KeyError instead of
    returning [None]. *)
Theorem version_short_row_raises :
  ∃ lssap, parsed lssap_short_row = Ok lssap ∧
    instances lssap = [] ∧
    (version lssap "D16").2 = Err (KeyError "Instance").
Proof. eexists. split_and!; vm_compute; reflexivity. Qed.

End LssapFacts.

(** ** The formatter over a whole run *)

Module TextBehaviour.
Import Py PyFacts Dr Text TextNotions TextFacts.

Section Formatter.
Context `{Host}.
Implicit Types (self : HumanReadableFormat) (broker : Broker) (c : component)
  (v : pyval).

Lemma typed_condition c broker :
  truthy (broker_get broker c) && is_dict (broker_get broker c)
    && has_type (broker_get broker c) = true ↔ typed c broker.
Proof.
  unfold typed. destruct (broker_get broker c) as [|d| | | |]; simpl;
    rewrite ?andb_false_r;
    try (split; [done | by intros (? & ? & ? & ?)]).
  rewrite andb_true_r. split.
  - intros [_ [_ [a Ha]%bool_decide_eq_true]%andb_true_iff]%andb_true_iff.
    by exists d, a.
  - intros (d' & a & [= <-] & Ha).
    assert (d ≠ ∅) as Hne by (intros ->; by rewrite lookup_empty in Ha).
    rewrite bool_decide_eq_false_2 by done. simpl.
    apply andb_true_iff. split; apply bool_decide_eq_true; [|by eexists].
    destruct (decide (size d = 0)) as [Hz|]; [|lia].
    by apply map_size_empty_iff in Hz.
Qed.

Lemma progress_bar_unhashable self c broker :
  hashable_type (broker_get broker c) = false → progress_bar self c broker = Err TypeError.
Proof.
  intros Hhash. unfold progress_bar.
  assert (typed c broker) as Ht.
  { unfold hashable_type in Hhash.
    destruct (broker_get broker c) as [|d| | | |] eqn:Hd; try done.
    destruct (d !! "type") as [a|] eqn:Ha; [|done]. by exists d, a. }
  rewrite (proj2 (typed_condition c broker) Ht).
  unfold hashable_type in Hhash. destruct (broker_get broker c) as [|d| | | |]; try done.
  simpl. destruct (d !! "type") as [[| | |b]|]; try done.
Qed.

Lemma progress_bar_mark self c broker :
  prepared self → hashable_type (broker_get broker c) = true →
  ∃ self', progress_bar self c broker = Ok self' ∧
    stream self' = stream self ++
      (if decide (noticed (c, broker)) then drop (length (stream self)) (stream self') else []) ∧
    (noticed (c, broker) →
       ∃ m, is_mark m ∧ stream self' = stream self ++ [m]).
Proof.
  intros [Hr Hk] Hhash. unfold progress_bar.
  destruct (truthy _ && is_dict _ && has_type _) eqn:Hv.
  - apply typed_condition in Hv. pose proof Hv as (d & a & Hd & Ha).
    rewrite Hd in Hhash. simpl in Hhash. rewrite Ha in Hhash.
    rewrite Hd. simpl. rewrite Ha. simpl.
    assert (noticed (c, broker)) as Hn by (by left).
    destruct (response_of (responses self) a) as [[r|]|] eqn:Hresp; simpl.
    + eexists. split; [done|]. simpl. rewrite decide_True by done.
      rewrite drop_app_length. split; [done|]. intros _. eexists. split; [|done].
      right. right. destruct a as [|t| |]; try done. simpl in Hresp. rewrite Hr in Hresp.
      exists t, r. split; [congruence | done].
    + eexists. split; [done|]. simpl. rewrite decide_True by done.
      rewrite drop_app_length. split; [done|]. intros _. eexists. split; [|done]. by left.
    + by destruct a.
  - assert (¬ typed c broker) as Hnt.
    { intros Ht%typed_condition. by rewrite Ht in Hv. }
    destruct (exceptions_of broker c) as [excs|] eqn:Hexc; simpl.
    + unfold add_to, getitem.
      assert (is_Some (dict_get "exception" (counts self))) as [n ->].
      { apply dict_get_keys. rewrite Hk. unfold vocabulary. repeat constructor. }
      simpl. eexists. split; [done|]. simpl.
      assert (noticed (c, broker)) as Hn.
      { right. simpl. rewrite Hexc. by eexists. }
      rewrite decide_True by done. rewrite drop_app_length. split; [done|].
      intros _. eexists. split; [|done]. right. by left.
    + exists self. split; [done|].
      assert (¬ noticed (c, broker)) as Hn.
      { intros [?|[? Hs]]; [done|]. simpl in Hs. by rewrite Hexc in Hs. }
      rewrite decide_False by done. split; [by rewrite app_nil_r | done].
Qed.

Lemma notifications_marks self (events : list (component * Broker)) :
  prepared self → hashable_events events →
  ∃ self' marks,
    notifications self events = Ok self' ∧
    stream self' = stream self ++ marks ∧
    length marks = length (filter noticed events) ∧
    Forall is_mark marks ∧
    (Fore = no_colors → Forall (λ m, String.length m = 1) marks).
Proof.
  revert self.
  induction events as [|[c broker] events IH]; intros self Hprep Hhash; simpl.
  { exists self, []. split_and!; try done. by rewrite app_nil_r. }
  apply Forall_cons in Hhash as [Hc Hhash]. simpl in Hc.
  destruct (progress_bar_mark self c broker Hprep Hc) as (self1 & H1 & Hst1 & Hm1).
  rewrite H1. simpl.
  destruct (progress_bar_Ok _ _ _ _ H1) as (Hs1 & Hk1 & _).
  pose proof (prepared_same_setup _ _ Hprep Hs1 Hk1) as Hprep1.
  destruct (IH self1 Hprep1 Hhash) as (self' & marks & -> & Hst & Hlen & Hall & Hone).
  rewrite filter_cons. destruct (decide (noticed (c, broker))) as [Hn|Hn].
  - destruct (Hm1 Hn) as (m & Hm & Hst1').
    exists self', (m :: marks). split_and!; try done.
    + rewrite Hst, Hst1'. by rewrite <- app_assoc.
    + simpl. by rewrite Hlen.
    + by constructor.
    + intros Hfore. constructor; [|by apply Hone].
      destruct Hm as [->|[->|(k & r & Hk & ->)]]; [done | by rewrite Hfore |].
      rewrite Hfore. unfold the_responses in Hk. rewrite Hfore in Hk. simpl in Hk.
      repeat (case_bool_decide; [by injection Hk as <- |]). done.
  - exists self', marks. split_and!; try done.
    rewrite Hst, Hst1. by rewrite app_nil_r.
Qed.

Lemma notifications_unhashable self (events : list (component * Broker)) :
  prepared self → ¬ hashable_events events → notifications self events = Err TypeError.
Proof.
  revert self. induction events as [|[c broker] events IH]; intros self Hprep Hbad; simpl.
  { destruct Hbad. constructor. }
  destruct (hashable_type (broker_get broker c)) eqn:Hc.
  - destruct (progress_bar_mark self c broker Hprep Hc) as (self1 & H1 & _).
    rewrite H1. simpl.
    destruct (progress_bar_Ok _ _ _ _ H1) as (Hs1 & Hk1 & _).
    apply IH; [by eapply prepared_same_setup|].
    intros Hrest. apply Hbad. by constructor.
  - by rewrite progress_bar_unhashable.
Qed.

(** X1: once [preprocess] has run, the notifications of a run raise exactly
    when a notified result has an unhashable value under 'type' (TypeError
    from the lookup in [self.responses]); otherwise they write the progress
    line: one mark for every notified component that has a typed result or
    captured exceptions, nothing for the others; every mark is a dot, the
    exception mark or the coloured initial of a response, and without colours
    every mark is a single character. *)
Theorem notifications_write_marks self (events : list (component * Broker)) :
  prepared self →
  (hashable_events events →
   ∃ self' marks,
     notifications self events = Ok self' ∧
     stream self' = stream self ++ marks ∧
     length marks = length (filter noticed events) ∧
     Forall is_mark marks ∧
     (Fore = no_colors → Forall (λ m, String.length m = 1) marks)) ∧
  (¬ hashable_events events → notifications self events = Err TypeError).
Proof.
  intros Hprep. split.
  - by apply notifications_marks.
  - by apply notifications_unhashable.
Qed.

(** **** Unknown tags *)

Lemma describe_rules_cons self broker c rules :
  describe_rules self broker (c :: rules) =
  describe_rules self broker [c] ≫= (λ self1, describe_rules self1 broker rules).
Proof.
  simpl. destruct (broker_getitem broker c) as [v|]; simpl; [|done].
  destruct (count_rule self v) as [self1|]; simpl; [|done].
  by destruct (printit self1 c v).
Qed.

Lemma tagged_with_inj broker c t1 t2 :
  tagged_with broker c t1 → tagged_with broker c t2 → t1 = t2.
Proof. intros (d1 & Hd1 & Ht1) (d2 & Hd2 & Ht2). congruence. Qed.

Lemma describe_known_rule self broker c t :
  prepared self → broker_getitem broker c = Ok (broker_get broker c) →
  tagged_with broker c t → t ∈ vocabulary →
  ∃ self1, describe_rules self broker [c] = Ok self1 ∧ prepared self1.
Proof.
  intros Hprep Hget (d & Hd & Ht) Hvoc.
  pose proof (describe_rules_total self broker [c] Hprep) as Hok.
  destruct (describe_rules self broker [c]) as [self1|] eqn:H1.
  - exists self1. split; [done|].
    destruct (describe_rules_Ok _ _ _ _ H1) as (Hs & _ & Hk & _).
    by eapply prepared_same_setup.
  - exfalso. assert (false = true); [|done]. apply Hok.
    intros c' ->%list_elem_of_singleton. split; [done|]. by exists d, t.
Qed.

Lemma describe_unknown_rule self broker c t :
  prepared self → broker_getitem broker c = Ok (broker_get broker c) →
  tagged_with broker c t → t ∉ vocabulary →
  describe_rules self broker [c] =
    if bool_decide (t = "") then Ok self else Err (KeyError t).
Proof.
  intros [Hr Hk] Hget (d & Hd & Ht) Hvoc.
  assert (dict_get t (responses self) = None) as Hnone.
  { destruct (dict_get t (responses self)) eqn:Hg; [|done].
    destruct Hvoc. apply (handled_vocabulary self t Hr). by eexists. }
  unfold describe_rules. rewrite Hget, Hd. simpl. unfold count_rule. simpl.
  rewrite Ht. simpl. rewrite Hnone. simpl.
  unfold printit. simpl. rewrite Ht. simpl.
  case_bool_decide as Hempty; simpl; [done|].
  unfold response_item. simpl. by rewrite Hnone.
Qed.

Lemma describe_rules_unknown self broker rules :
  prepared self →
  (∀ c, c ∈ rules →
        broker_getitem broker c = Ok (broker_get broker c) ∧
        ∃ t, tagged_with broker c t) →
  (∃ c t, c ∈ rules ∧ tagged_with broker c t ∧ t ≠ "" ∧ t ∉ vocabulary) →
  ∃ t, t ≠ "" ∧ (t ∉ vocabulary) ∧ describe_rules self broker rules = Err (KeyError t).
Proof.
  revert self. induction rules as [|c rules IH]; intros self Hprep Hall Hbad.
  { destruct Hbad as (c & t & ?%elem_of_nil & _). done. }
  destruct (Hall c ltac:(left)) as [Hget [t Ht]].
  assert (∀ c', c' ∈ rules →
            broker_getitem broker c' = Ok (broker_get broker c') ∧
            ∃ t', tagged_with broker c' t') as Hall'.
  { intros c' Hc'. apply Hall. by right. }
  rewrite describe_rules_cons.
  destruct (decide (t ∈ vocabulary)) as [Hvoc|Hvoc].
  - destruct (describe_known_rule self broker c t Hprep Hget Ht Hvoc)
      as (self1 & -> & Hprep1).
    simpl. apply IH; [done | done |].
    destruct Hbad as (cb & tb & [->|Hin]%elem_of_cons & Htb & Hne & Hnv).
    + by rewrite (tagged_with_inj _ _ _ _ Ht Htb) in Hvoc.
    + by exists cb, tb.
  - rewrite (describe_unknown_rule self broker c t Hprep Hget Ht Hvoc).
    case_bool_decide as Hempty; simpl.
    + apply IH; [done | done |].
      destruct Hbad as (cb & tb & [->|Hin]%elem_of_cons & Htb & Hne & Hnv).
      * by rewrite <- (tagged_with_inj _ _ _ _ Ht Htb) in Hne.
      * by exists cb, tb.
    + by exists t.
Qed.

(** X2: [progress_bar] shows a result with an unknown tag as a dot, but
    [show_description] does not survive one: when every rule result is a dict
    with a string type and one of them carries a non empty tag that is not a
    key of [self.responses], [show_description] raises KeyError with such a
    tag, and prints no summary. *)
Theorem show_description_unknown_tag self broker :
  prepared self →
  (∀ c, c ∈ (get_by_type rule broker).*1 → ∃ t, tagged_with broker c t) →
  (∃ c t, c ∈ (get_by_type rule broker).*1 ∧ tagged_with broker c t ∧
          t ≠ "" ∧ t ∉ vocabulary) →
  ∃ t, t ≠ "" ∧ (t ∉ vocabulary) ∧ show_description self broker = Err (KeyError t).
Proof.
  intros Hprep Hall Hbad.
  assert (∀ c, c ∈ sorted_rules broker ↔ c ∈ (get_by_type rule broker).*1) as Hsorted.
  { intros c. unfold sorted_rules. by rewrite sorted_by_perm. }
  destruct (describe_rules_unknown self broker (sorted_rules broker) Hprep)
    as (t & Hne & Hvoc & Herr).
  - intros c Hc%Hsorted. split; [by eapply broker_getitem_key | by apply Hall].
  - destruct Hbad as (c & t & Hc & Ht). exists c, t. split; [by apply Hsorted | done].
  - exists t. split_and!; try done. unfold show_description. by rewrite Herr.
Qed.

(** **** The order of the description *)

Lemma insert_by_sorted {A} (key : A → string) x l :
  Sorted (λ a b, String.le (key a) (key b)) l →
  Sorted (λ a b, String.le (key a) (key b)) (insert_by key x l).
Proof.
  induction 1 as [|y l Hl IH Hy]; simpl; [by repeat constructor|].
  destruct (String.leb (key x) (key y)) eqn:Hxy.
  - constructor; [by constructor|]. constructor. unfold String.le. by rewrite Hxy.
  - assert (String.le (key y) (key x)) as Hyx.
    { destruct (total String.le (key x) (key y)) as [Hle|Hle]; [|done].
      unfold String.le in Hle. by rewrite Hxy in Hle. }
    constructor; [done|].
    destruct l as [|z l]; simpl; [by constructor|].
    destruct (String.leb (key x) (key z)); constructor; [done|].
    by inversion Hy.
Qed.

Lemma sorted_by_sorted {A} (key : A → string) l :
  Sorted (λ a b, String.le (key a) (key b)) (sorted_by key l).
Proof.
  induction l as [|x l IH]; simpl; [constructor|]. by apply insert_by_sorted.
Qed.

(** X3: whatever the order in which the Broker holds the rules,
    [show_description] describes them in the order of their names: the blocks
    it prints are those of a rearrangement of the rules that is sorted by
    [dr.get_name], each rule taken once. *)
Theorem rules_described_in_name_order self broker self' :
  prepared self → show_description self broker = Ok self' →
  ∃ order,
    order ≡ₚ (get_by_type rule broker).*1 ∧
    Sorted name_order order ∧
    stream self' =
      stream self ++ blocks (missing self) the_responses broker order
      ++ [nl] ++ header_lines "Rule Execution Summary" (CYAN Fore)
      ++ (summary_text the_responses (counts self') <$> vocabulary).
Proof.
  intros Hprep Hshow. exists (sorted_rules broker).
  destruct (show_description_Ok _ _ _ Hprep Hshow) as (_ & _ & _ & Hstream).
  split_and!; [apply sorted_by_perm | apply sorted_by_sorted | done].
Qed.

(** **** Counts are never reset *)

(** X6: [show_description] adds to [self.counts] and never resets them:
    describing the same Broker twice counts every rule twice. *)
Theorem show_description_accumulates self broker self1 self2 :
  prepared self →
  show_description self broker = Ok self1 →
  show_description self1 broker = Ok self2 →
  ∀ k, k ∈ vocabulary →
    count_of k (counts self2) = count_of k (counts self) + 2 * tally k broker.
Proof.
  intros Hprep H1 H2 k Hk.
  destruct (show_description_Ok _ _ _ Hprep H1) as (Hprep1 & _ & Hc1 & _).
  destruct (show_description_Ok _ _ _ Hprep1 H2) as (_ & _ & Hc2 & _).
  rewrite (Hc2 k Hk), (Hc1 k Hk). lia.
Qed.

(** **** The whole of [postprocess] *)

Lemma paths_in_total items :
  (∀ d, d ∈ items → ∃ p, d = EProvider p) → is_ok (paths_in items) = true.
Proof.
  induction items as [|d items IH]; intros Hall; simpl; [done|].
  destruct (Hall d ltac:(left)) as [p ->]. simpl.
  assert (is_ok (paths_in items) = true) as Hok.
  { apply IH. intros d' Hd'. apply Hall. by right. }
  by destruct (paths_in items).
Qed.

Lemma paths_of_total values :
  (∀ v, v ∈ values →
        (∃ p, v = VProvider p) ∨
        (∃ items, v = VList items ∧ ∀ d, d ∈ items → ∃ p, d = EProvider p)) →
  is_ok (paths_of values) = true.
Proof.
  induction values as [|v values IH]; intros Hall; simpl; [done|].
  assert (is_ok (paths_of values) = true) as Hok.
  { apply IH. intros v' Hv'. apply Hall. by right. }
  destruct (Hall v ltac:(left)) as [[p ->]|(items & -> & Hitems)]; simpl.
  - by destruct (paths_of values).
  - pose proof (paths_in_total items Hitems) as Hin.
    destruct (paths_in items); simpl; [|done]. by destruct (paths_of values).
Qed.

Lemma show_dropped_total self broker :
  context_or_none broker → datasources_have_paths broker →
  is_ok (show_dropped self broker) = true.
Proof.
  intros Hctx Hds. unfold show_dropped.
  destruct Hctx as [->|[files ->]]; simpl; [done|].
  destruct (files_truthy files); [|done].
  assert (is_ok (paths_of (get_by_type datasource broker).*2) = true) as Hok.
  { apply paths_of_total. intros v ([c v'] & -> & Hin)%list_elem_of_fmap.
    by apply (Hds c v'). }
  by destruct (paths_of _).
Qed.

Lemma show_dropped_stream self broker self' :
  show_dropped self broker = Ok self' →
  ∃ part, stream self' = stream self ++ part ∧ (part = [] ∨ length part = 2).
Proof.
  unfold show_dropped.
  assert (∃ part, stream self = stream self ++ part ∧ (part = [] ∨ length part = 2))
    as Hnone by (exists []; split; [by rewrite app_nil_r | by left]).
  destruct (truthy _); [|by intros [= <-]].
  destruct (all_files_of _) as [files|]; simpl; [|done].
  destruct (files_truthy files); [|by intros [= <-]].
  destruct (paths_of _); simpl; [|done]. intros [= <-]. simpl.
  eexists. rewrite <- app_assoc. split; [done|]. by right.
Qed.

Lemma show_tracebacks_stream self broker :
  stream (show_tracebacks self broker) = stream self ++ traceback_lines broker.
Proof.
  unfold show_tracebacks, traceback_lines.
  destruct (broker_tracebacks broker) as [|tb tbs]; [by rewrite app_nil_r|].
  generalize ((tb :: tbs).*2). intros lines.
  assert (∀ s0, stream (foldl (λ s t, print t s) s0 lines) =
                stream s0 ++ ((λ t, t +:+ nl) <$> lines)) as Hfold.
  { induction lines as [|t lines IH]; intros s0; simpl; [by rewrite app_nil_r|].
    rewrite IH. simpl. by rewrite <- app_assoc. }
  rewrite Hfold. simpl. by rewrite <- !app_assoc.
Qed.

(** X4: a run is rendered to the end, without any exception, whenever no
    notified result has an unhashable value (a list, a dict, a set) under
    'type', the rule results of the final Broker are dicts whose type is one
    of the seven tags and, if dropped files are asked for, the context found
    is [None] or an execution context and every datasource result has a path
    or is a list of results that have one.  Nothing is asked of the
    exceptions or of the tracebacks the Broker holds.  A notified result with
    an unhashable type makes the run raise TypeError. *)
Theorem run_never_raises (opts : Options) broker0
    (events : list (component * Broker)) final :
  rules_well_tagged final →
  (opt_dropped opts = true → context_or_none final ∧ datasources_have_paths final) →
  (hashable_events events → is_ok (session opts broker0 events final) = true) ∧
  (¬ hashable_events events → session opts broker0 events final = Err TypeError).
Proof.
  intros Hrules Hdrop. split.
  2:{ intros Hbad. unfold session.
      by rewrite (notifications_unhashable _ events (preprocess_prepared opts broker0) Hbad). }
  intros Hhash. unfold session.
  pose proof (notifications_total _ events (preprocess_prepared opts broker0) Hhash) as Hok.
  destruct (notifications _ events) as [self1|] eqn:H1; [|done]. simpl.
  destruct (notifications_Ok _ _ _ H1) as (Hs1 & Hk1 & _).
  pose proof (prepared_same_setup _ _ (preprocess_prepared opts broker0) Hs1 Hk1) as Hprep1.
  unfold postprocess.
  set (self2 := if tracebacks self1 then _ else _).
  assert (same_setup self1 self2 ∧ counts self2 = counts self1) as [Hs2 Hc2].
  { unfold self2. destruct (tracebacks self1); [apply show_tracebacks_keeps | done]. }
  assert (dropped self2 = opt_dropped opts) as Hd.
  { destruct Hs2 as (_ & _ & -> & _). by destruct Hs1 as (_ & _ & -> & _). }
  assert (prepared self2) as Hprep2.
  { by eapply prepared_same_setup; [exact Hprep1 | exact Hs2 | rewrite Hc2]. }
  destruct (dropped self2) eqn:Hdropped; simpl.
  - destruct Hdrop as [Hctx Hds]; [by rewrite <- Hd|].
    pose proof (show_dropped_total self2 final Hctx Hds) as Hok2.
    destruct (show_dropped self2 final) as [self3|] eqn:H3; [|done]. simpl.
    destruct (show_dropped_keeps _ _ _ H3) as [Hs3 Hc3].
    apply show_description_total; [|done].
    destruct Hprep2 as [Hr Hk]. destruct Hs3 as (_ & _ & _ & Hr3).
    split; simpl; [by rewrite Hr3 | by rewrite Hc3].
  - apply show_description_total; [|done].
    destruct Hprep2 as [Hr Hk]. by split.
Qed.

(** X5: the layout of what [postprocess] writes: the tracebacks (a blank
    line, the heading and one line for each traceback, and only when the
    option is set and the Broker holds some), then the dropped files (two
    entries or nothing, and nothing without the option), then two blank
    lines, the heading 'Rules Executed', the description of the rules and
    the Rule Execution Summary. *)
Theorem postprocess_layout self broker self' :
  prepared self → postprocess self broker = Ok self' →
  ∃ dropped_part,
    stream self' =
      stream self
      ++ (if tracebacks self then traceback_lines broker else [])
      ++ dropped_part
      ++ [nl; nl] ++ header_lines "Rules Executed" (CYAN Fore)
      ++ blocks (missing self) the_responses broker (sorted_rules broker)
      ++ [nl] ++ header_lines "Rule Execution Summary" (CYAN Fore)
      ++ (summary_text the_responses (counts self') <$> vocabulary) ∧
    (dropped_part = [] ∨ length dropped_part = 2) ∧
    (dropped self = false → dropped_part = []).
Proof.
  intros Hprep. unfold postprocess.
  set (self1 := if tracebacks self then _ else _).
  assert (same_setup self self1 ∧ counts self1 = counts self ∧
          stream self1 = stream self ++
            (if tracebacks self then traceback_lines broker else [])) as (Hs1 & Hc1 & Hst1).
  { unfold self1. destruct (tracebacks self).
    - destruct (show_tracebacks_keeps self broker) as [? ?].
      split_and!; try done. apply show_tracebacks_stream.
    - split_and!; try done. by rewrite app_nil_r. }
  destruct (if dropped self1 then _ else _) as [self2|] eqn:H2; simpl; [|done].
  assert (same_setup self1 self2 ∧ counts self2 = counts self1 ∧
          ∃ part, stream self2 = stream self1 ++ part ∧
                  (part = [] ∨ length part = 2) ∧
                  (dropped self = false → part = [])) as (Hs2 & Hc2 & part & Hst2 & Hpart & Hoff).
  { destruct Hs1 as (_ & _ & Hd1 & _). rewrite Hd1 in H2.
    destruct (dropped self).
    - destruct (show_dropped_keeps _ _ _ H2) as [? ?].
      destruct (show_dropped_stream _ _ _ H2) as (part & ? & ?).
      split_and!; try done. by exists part.
    - injection H2 as <-. split_and!; try done. exists [].
      split_and!; [by rewrite app_nil_r | by left | done]. }
  set (self3 := print_header _ _ _). intros H3.
  pose proof (same_setup_trans _ _ _ Hs1 Hs2) as Hs12.
  assert (prepared self3) as Hprep3.
  { destruct Hprep as [Hr Hk]. destruct Hs12 as (_ & _ & _ & Hr12).
    split; simpl; [by rewrite Hr12 | by rewrite Hc2, Hc1]. }
  destruct (show_description_Ok _ _ _ Hprep3 H3) as (_ & _ & _ & Hstream).
  exists part. split_and!; try done.
  rewrite Hstream. simpl. destruct Hs12 as (-> & _).
  rewrite Hst2, Hst1. by rewrite <- !app_assoc.
Qed.

(** **** The vocabulary at work *)





End Formatter.

(** *** The notifications of a run reach [progress_bar] *)

Section Notification.
Context `{Host} `{!Countable component} {V F : Type}.
Implicit Types (self : HumanReadableFormat) (broker : Broker) (c : component).

Lemma matching_others (obs : Observers component Callback) c t :
  Forall (λ r, r.1 ≠ ProgressBar) obs →
  Forall (λ o, o ≠ ProgressBar) (matching obs c t).
Proof.
  intros Hobs. unfold matching. apply Forall_fmap.
  apply Forall_forall. intros r [_ Hr]%list_elem_of_filter.
  by apply (proj1 (Forall_forall _ _) Hobs).
Qed.

Lemma deliver_others self c broker callbacks rest :
  Forall (λ o, o ≠ ProgressBar) callbacks →
  deliver self c broker (callbacks ++ rest) = deliver self c broker rest.
Proof.
  induction 1 as [|o callbacks Ho _ IH]; simpl; [done|]. by destruct o.
Qed.

Lemma log_others (callbacks : list Callback) c :
  Forall (λ o, o ≠ ProgressBar) callbacks →
  filter (λ n : Callback * component, n.1 = ProgressBar) ((λ o, (o, c)) <$> callbacks) = [].
Proof.
  induction 1 as [|o callbacks Ho _ IH]; simpl; [done|].
  rewrite filter_cons. simpl. by rewrite decide_False.
Qed.

(** C7: [preprocess] registers [progress_bar] with the Broker four times,
    each time with a capability tag as selector and no unit identity: rule,
    condition, incident and parser, in this order, after the registrations
    the Broker already holds.  Hence, when no other registration names
    [progress_bar], a run of the engine with these observers notifies
    [progress_bar] once for every unit it completes that carries one of the
    four tags, with the identity of that unit and in the order of the run,
    and never for a unit with another tag; and the notification of a
    completed unit is one call of [progress_bar] with the unit and the
    Broker for the four tags, and no call otherwise. *)
Theorem progress_bar_notified_once (opts : Options) broker
    (reg : Registry component V F) (order : list component)
    (s : Dr.Broker component V F Callback) :
  Forall (λ r, r.1 ≠ ProgressBar) (Text.observers broker) →
  Dr.run reg order (Dr.new_broker (Text.observers (preprocess opts broker).2)) = Ok s →
  Text.observers (preprocess opts broker).2 =
    Text.observers broker ++ ((λ t, (ProgressBar, OnTag t)) <$> progress_tags) ∧
  filter (λ n, n.1 = ProgressBar) (Dr.notified s) = progress_notifications reg order ∧
  ∀ self c t,
    completed self (preprocess opts broker).2 c t =
      if bool_decide (t ∈ progress_tags)
      then progress_bar self c (preprocess opts broker).2
      else Ok self.
Proof.
  intros Hothers Hrun.
  destruct (preprocess_registrations opts broker) as [Hobs Hmatch].
  split; [done|]. split.
  - destruct (DrFacts.run_notified _ _ _ _ Hrun) as [_ ->]. simpl.
    clear Hrun. unfold progress_notifications.
    induction order as [|a order IH]; simpl; [done|].
    rewrite filter_app, IH. clear IH.
    destruct (find_unit reg a) as [u|]; simpl; [|done].
    rewrite Hmatch, fmap_app, filter_app.
    rewrite (log_others _ a (matching_others _ a (tag u) Hothers)). simpl.
    by case_bool_decide.
  - intros self c t. unfold completed. rewrite Hmatch.
    rewrite (deliver_others _ _ _ _ _ (matching_others _ c t Hothers)).
    case_bool_decide; simpl; [|done].
    by destruct (progress_bar self c _).
Qed.

End Notification.

(** *** The demo host *)

Section Examples.
Import Demo DemoRun.

Lemma demo_rules : (get_by_type rule broker_done).*1 = [report_b; report_a].
Proof. vm_compute. reflexivity. Qed.

Lemma demo_rules_well_tagged : rules_well_tagged broker_done.
Proof.
  intros c Hc. rewrite demo_rules in Hc.
  apply elem_of_cons in Hc as [->|Hc]; [|apply list_elem_of_singleton in Hc as ->].
  - exists {[ "type" := AStr "skip" ]}, "skip". split_and!; [done | done | left].
  - exists {[ "type" := AStr "rule" ]}, "rule".
    split_and!; [done | done | unfold vocabulary; repeat constructor].
Qed.

Lemma demo_datasources : datasources_have_paths broker_done.
Proof.
  intros c v Hin.
  assert (get_by_type datasource broker_done =
          [ (hostname, VProvider "/etc/hostname");
            (messages, VList [EProvider "/var/log/messages"]) ]) as Hds
    by (vm_compute; reflexivity).
  rewrite Hds in Hin.
  apply elem_of_cons in Hin as [[= -> ->]|Hin];
    [|apply list_elem_of_singleton in Hin as [= -> ->]].
  - left. by eexists.
  - right. eexists. split; [done|]. intros d ->%list_elem_of_singleton. by eexists.
Qed.

Lemma demo_events_hashable : hashable_events events.
Proof. repeat (constructor; [vm_compute; reflexivity|]). constructor. Qed.

Lemma demo_list_tag_unhashable : ¬ hashable_events [(report_a, broker_list_tag)].
Proof. intros [Hbad _]%Forall_cons. vm_compute in Hbad. discriminate. Qed.

Lemma notifications_write_marks_witness :
  prepared (fresh false) ∧ hashable_events events ∧
  (∃ self' marks,
     notifications (fresh false) events = Ok self' ∧
     stream self' = stream (fresh false) ++ marks ∧
     length marks = length (filter noticed events) ∧
     Forall is_mark marks ∧
     (Fore = no_colors → Forall (λ m, String.length m = 1) marks)) ∧
  notifications (fresh false) [(report_a, broker_list_tag)] = Err TypeError.
Proof.
  split; [exact (preprocess_prepared (options false) empty_broker)|].
  split; [exact demo_events_hashable|]. split.
  - exact (proj1 (notifications_write_marks (fresh false) events
                    (preprocess_prepared (options false) empty_broker))
             demo_events_hashable).
  - exact (proj2 (notifications_write_marks (fresh false) [(report_a, broker_list_tag)]
                    (preprocess_prepared (options false) empty_broker))
             demo_list_tag_unhashable).
Defined.

Example demo_progress_line :
  (λ r, match r with Ok self' => drop 3 (stream self') | Err _ => [] end)
    (notifications (fresh false) events) = ["F"; "E"].
Proof. vm_compute. reflexivity. Qed.

Lemma fail_is_unknown : "fail" ∉ vocabulary.
Proof.
  unfold vocabulary. intros Hin.
  repeat (apply elem_of_cons in Hin as [Hin|Hin]; [discriminate|]).
  by apply elem_of_nil in Hin.
Qed.

Lemma fail_tagged : tagged_with broker_fail_tag report_a "fail".
Proof. exists {[ "type" := AStr "fail" ]}. by split. Qed.

Lemma fail_rules : (get_by_type rule broker_fail_tag).*1 = [report_a].
Proof. vm_compute. reflexivity. Qed.

Lemma fail_all_tagged :
  ∀ c, c ∈ (get_by_type rule broker_fail_tag).*1 → ∃ t, tagged_with broker_fail_tag c t.
Proof.
  intros c Hc. rewrite fail_rules in Hc. apply list_elem_of_singleton in Hc as ->.
  exists "fail". apply fail_tagged.
Qed.

Lemma fail_some_unknown :
  ∃ c t, c ∈ (get_by_type rule broker_fail_tag).*1 ∧ tagged_with broker_fail_tag c t ∧
         t ≠ "" ∧ t ∉ vocabulary.
Proof.
  exists report_a, "fail". rewrite fail_rules.
  split_and!; [left | apply fail_tagged | done | apply fail_is_unknown].
Qed.

Lemma show_description_unknown_tag_witness :
  prepared (fresh false) ∧
  (∀ c, c ∈ (get_by_type rule broker_fail_tag).*1 → ∃ t, tagged_with broker_fail_tag c t) ∧
  (∃ c t, c ∈ (get_by_type rule broker_fail_tag).*1 ∧ tagged_with broker_fail_tag c t ∧
          t ≠ "" ∧ t ∉ vocabulary) ∧
  ∃ t, t ≠ "" ∧ (t ∉ vocabulary) ∧
       show_description (fresh false) broker_fail_tag = Err (KeyError t).
Proof.
  split; [exact (preprocess_prepared (options false) empty_broker)|].
  split; [exact fail_all_tagged|]. split; [exact fail_some_unknown|].
  exact (show_description_unknown_tag (fresh false) broker_fail_tag
           (preprocess_prepared (options false) empty_broker)
           fail_all_tagged fail_some_unknown).
Defined.

Lemma rules_described_in_name_order_witness :
  ∃ self',
    prepared (fresh false) ∧ show_description (fresh false) broker_done = Ok self' ∧
    ∃ order,
      order ≡ₚ (get_by_type rule broker_done).*1 ∧
      Sorted name_order order ∧
      stream self' =
        stream (fresh false) ++ blocks (missing (fresh false)) the_responses broker_done order
        ++ [nl] ++ header_lines "Rule Execution Summary" (CYAN Fore)
        ++ (summary_text the_responses (counts self') <$> vocabulary).
Proof.
  destruct (is_ok_Ok (show_description (fresh false) broker_done)) as [self' Hshow];
    [vm_compute; reflexivity|].
  exists self'. split; [exact (preprocess_prepared (options false) empty_broker)|].
  split; [exact Hshow|].
  exact (rules_described_in_name_order (fresh false) broker_done self'
           (preprocess_prepared (options false) empty_broker) Hshow).
Defined.

Lemma demo_context : context_or_none broker_done.
Proof. right. by eexists. Qed.

Lemma run_never_raises_witness :
  rules_well_tagged broker_done ∧
  (opt_dropped (options false) = true →
   context_or_none broker_done ∧ datasources_have_paths broker_done) ∧
  hashable_events events ∧
  is_ok (session (options false) empty_broker events broker_done) = true ∧
  session (options false) empty_broker [(report_a, broker_list_tag)] broker_done
    = Err TypeError.
Proof.
  split; [exact demo_rules_well_tagged|].
  split; [exact (λ _, conj demo_context demo_datasources)|].
  split; [exact demo_events_hashable|]. split.
  - exact (proj1 (run_never_raises (options false) empty_broker events broker_done
                    demo_rules_well_tagged (λ _, conj demo_context demo_datasources))
             demo_events_hashable).
  - exact (proj2 (run_never_raises (options false) empty_broker
                    [(report_a, broker_list_tag)] broker_done
                    demo_rules_well_tagged (λ _, conj demo_context demo_datasources))
             demo_list_tag_unhashable).
Defined.

Lemma postprocess_layout_witness :
  ∃ self',
    prepared (fresh false) ∧ postprocess (fresh false) broker_done = Ok self' ∧
    ∃ dropped_part,
      stream self' =
        stream (fresh false)
        ++ (if tracebacks (fresh false) then traceback_lines broker_done else [])
        ++ dropped_part
        ++ [nl; nl] ++ header_lines "Rules Executed" (CYAN Fore)
        ++ blocks (missing (fresh false)) the_responses broker_done (sorted_rules broker_done)
        ++ [nl] ++ header_lines "Rule Execution Summary" (CYAN Fore)
        ++ (summary_text the_responses (counts self') <$> vocabulary) ∧
      (dropped_part = [] ∨ length dropped_part = 2) ∧
      (dropped (fresh false) = false → dropped_part = []).
Proof.
  destruct (is_ok_Ok (postprocess (fresh false) broker_done)) as [self' Hpost];
    [vm_compute; reflexivity|].
  exists self'. split; [exact (preprocess_prepared (options false) empty_broker)|].
  split; [exact Hpost|].
  exact (postprocess_layout (fresh false) broker_done self'
           (preprocess_prepared (options false) empty_broker) Hpost).
Defined.

Lemma show_description_accumulates_witness :
  ∃ self1 self2,
    prepared (fresh false) ∧
    show_description (fresh false) broker_done = Ok self1 ∧
    show_description self1 broker_done = Ok self2 ∧
    ∀ k, k ∈ vocabulary →
      count_of k (counts self2) = count_of k (counts (fresh false)) + 2 * tally k broker_done.
Proof.
  destruct (is_ok_Ok (show_description (fresh false) broker_done)) as [self1 H1];
    [vm_compute; reflexivity|].
  destruct (show_description_Ok _ _ _ (preprocess_prepared (options false) empty_broker) H1)
    as (Hprep1 & _).
  destruct (is_ok_Ok (show_description self1 broker_done)) as [self2 H2];
    [exact (show_description_total self1 broker_done Hprep1 demo_rules_well_tagged)|].
  exists self1, self2. split; [exact (preprocess_prepared (options false) empty_broker)|].
  split; [exact H1|]. split; [exact H2|].
  exact (show_description_accumulates (fresh false) broker_done self1 self2
           (preprocess_prepared (options false) empty_broker) H1 H2).
Defined.


Lemma demo_fired_and_fail_tag :
  progress_bar (fresh false) report_a broker_done = Ok (write "F" (fresh false)) ∧
  describe_rules (fresh false) broker_fail_tag [report_a] = Err (KeyError "fail").
Proof. split; vm_compute; reflexivity. Qed.

Lemma progress_bar_notified_once_witness :
  ∃ s,
    Forall (λ r : Callback * Selector Component, r.1 ≠ ProgressBar)
      (Text.observers empty_broker) ∧
    Dr.run units order
      (Dr.new_broker (Text.observers (preprocess (options false) empty_broker).2)) = Ok s ∧
    Text.observers (preprocess (options false) empty_broker).2 =
      Text.observers empty_broker ++ ((λ t, (ProgressBar, OnTag t)) <$> progress_tags) ∧
    filter (λ n, n.1 = ProgressBar) (Dr.notified s) = progress_notifications units order ∧
    ∀ self c t,
      completed self (preprocess (options false) empty_broker).2 c t =
        if bool_decide (t ∈ progress_tags)
        then progress_bar self c (preprocess (options false) empty_broker).2
        else Ok self.
Proof.
  destruct (is_ok_Ok (Dr.run units order
              (Dr.new_broker (Text.observers (preprocess (options false) empty_broker).2))))
    as [s Hrun]; [vm_compute; reflexivity|].
  exists s. split; [constructor|]. split; [exact Hrun|].
  exact (progress_bar_notified_once (options false) empty_broker units order s
           (Forall_nil_2 _) Hrun).
Defined.

(** The run of the demo: the parser and the rule are notified, the
    datasource is not. *)
Example demo_notifications :
  progress_notifications units order = [(ProgressBar, Uname); (ProgressBar, report_a)] ∧
  (λ r, match r with Ok s => Dr.notified s | Err _ => [] end)
    (Dr.run units order
       (Dr.new_broker (Text.observers (preprocess (options false) empty_broker).2)))
  = [(ProgressBar, Uname); (ProgressBar, report_a)].
Proof. split; vm_compute; reflexivity. Qed.

End Examples.
End TextBehaviour.

(** ** The lssap parser: versions, instance types, framing lines *)

Module LssapBehaviour.
Import Py PyFacts Lssap LssapNotions LssapFacts.

Lemma rstrip_only chars s : only chars s → rstrip chars s = "".
Proof.
  unfold only. induction s as [|c s IH]; intros Hall; simpl; [done|].
  rewrite IH by (intros c' Hc'; apply Hall; by right).
  by rewrite (Hall c ltac:(left)).
Qed.

Lemma rstrip_app chars p suffix :
  only chars suffix → rstrip chars (p +:+ suffix) = rstrip chars p.
Proof.
  intros Hs. induction p as [|c p IH]; simpl; [by apply rstrip_only|]. by rewrite IH.
Qed.

Lemma rstrip_decompose chars s :
  ∃ suffix, s = rstrip chars s +:+ suffix ∧ only chars suffix.
Proof.
  induction s as [|c s (suffix & Hs & Hsuffix)]; simpl.
  { exists "". split; [done|]. by intros c ?%elem_of_nil. }
  destruct (rstrip chars s) as [|c' rest] eqn:Hr.
  - simpl in Hs. subst s. destruct (is_in chars c) eqn:Hc.
    + exists (String c suffix). split; [done|].
      intros c' [->|Hc']%elem_of_cons; [done | by apply Hsuffix].
    + by exists suffix.
  - exists suffix. split; [|done].
    change (String c s = String c (String c' rest +:+ suffix)). by rewrite <- Hs.
Qed.

Lemma rstrip_is_prefix chars T i :
  rstrip chars T = T →
  rstrip chars i = T ↔ ∃ ds, i = T +:+ ds ∧ only chars ds.
Proof.
  intros HT. split.
  - intros <-. apply rstrip_decompose.
  - intros (ds & -> & Hds). by rewrite rstrip_app.
Qed.

Section Parser.
Variable parse_delimited_table : list string → list row.
Variable repr : list string → string.

Lemma instance_types_of content self T :
  parse_content parse_delimited_table repr content = Ok self →
  T ∈ instance_types self ↔
  ∃ (r : row) i, r ∈ data self ∧ r !! "Instance" = Some i ∧ rstrip digits i = T.
Proof.
  unfold parse_content. destruct (_ && _); [|done]. intros [= <-]. simpl.
  rewrite elem_of_sorted_set, list_elem_of_fmap. split.
  - intros (i & -> & (r & Hr & Hi)%list_elem_of_omap). by exists r, i.
  - intros (r & i & Hr & Hi & <-). exists i. split; [done|].
    apply list_elem_of_omap. by exists r.
Qed.

(** X8: for a parsed table and a type name [T] that does not end in a
    digit, [T] is one of [instance_types] exactly when some row has an
    Instance cell made of [T] followed by digits only; so [is_netweaver],
    [is_hana] and [is_ascs] hold exactly when some instance is D, HDB or
    ASCS followed by digits only. *)
Theorem instance_type_detected content self :
  parse_content parse_delimited_table repr content = Ok self →
  (∀ T, rstrip digits T = T → T ∈ instance_types self ↔ has_instance_of self T) ∧
  (is_netweaver self = true ↔ has_instance_of self "D") ∧
  (is_hana self = true ↔ has_instance_of self "HDB") ∧
  (is_ascs self = true ↔ has_instance_of self "ASCS").
Proof.
  intros Hparse.
  assert (∀ T, rstrip digits T = T → T ∈ instance_types self ↔ has_instance_of self T)
    as Hgen.
  { intros T HT. rewrite (instance_types_of _ _ _ Hparse). unfold has_instance_of. split.
    - intros (r & i & Hr & Hi & Hstrip).
      apply (rstrip_is_prefix _ _ _ HT) in Hstrip as (ds & -> & Hds). by exists r, ds.
    - intros (r & ds & Hr & Hi & Hds). exists r, (T +:+ ds). split_and!; try done.
      apply (rstrip_is_prefix _ _ _ HT). by exists ds. }
  split; [exact Hgen|].
  unfold is_netweaver, is_hana, is_ascs. rewrite !bool_decide_eq_true.
  split_and!; by apply Hgen.
Qed.

(** X9: the first two lines and the last line of the content only frame the
    table: whatever they are, the content parses or fails alike, and when it
    parses the result depends on the lines between them only.  In the
    message of the exception alone the whole content shows. *)
Theorem parse_content_ignores_frame (a b z a' b' z' : string) (body : list string) :
  match parse_content parse_delimited_table repr (a :: b :: body ++ [z]),
        parse_content parse_delimited_table repr (a' :: b' :: body ++ [z']) with
  | Ok self, Ok self' =>
      self = self' ∧ data self = parse_delimited_table body
  | Err e, Err e' =>
      e = unparsable repr (a :: b :: body ++ [z]) ∧
      e' = unparsable repr (a' :: b' :: body ++ [z'])
  | _, _ => False
  end.
Proof.
  unfold parse_content. rewrite !slice_2_m1.
  change (drop 2 (a :: b :: body ++ [z])) with (body ++ [z]).
  change (drop 2 (a' :: b' :: body ++ [z'])) with (body ++ [z']).
  rewrite !removelast_last. by destruct (_ && _).
Qed.

End Parser.

Lemma version_in_cases rows instance :
  (∀ v, version_in rows instance = Ok (Some v) ↔
        ∃ before (r : row) after,
          rows = before ++ r :: after ∧
          Forall (other_instance instance) before ∧
          r !! "Instance" = Some instance ∧ r !! "Version" = Some v) ∧
  (version_in rows instance = Ok None ↔ Forall (other_instance instance) rows) ∧
  (∀ e, version_in rows instance = Err e →
        e = KeyError "Instance" ∨ e = KeyError "Version").
Proof.
  induction rows as [|r rows (IHsome & IHnone & IHerr)]; simpl.
  { split_and!; try done.
    intros v. split; [done|]. intros (before & r & after & Hnil & _).
    by destruct before. }
  destruct (r !! "Instance") as [i|] eqn:Hi.
  2:{ split_and!.
      - intros v. split; [done|].
        intros (before & r' & after & Hrows & Hbefore & Hr' & _).
        destruct before as [|r0 before]; simpl in Hrows; injection Hrows as <- _.
        + congruence.
        + apply Forall_cons in Hbefore as [(j & Hj & _) _]. congruence.
      - split; [done|]. intros [(j & Hj & _) _]%Forall_cons. congruence.
      - intros e [= <-]. by left. }
  case_bool_decide as Heq.
  - subst i. split_and!.
    + intros v. split.
      * destruct (r !! "Version") as [w|] eqn:Hw; [|done]. intros [= <-].
        exists [], r, rows. by split_and!.
      * intros (before & r' & after & Hrows & Hbefore & Hr' & Hv).
        destruct before as [|r0 before]; simpl in Hrows; injection Hrows as <- _.
        -- by rewrite Hv.
        -- apply Forall_cons in Hbefore as [(j & Hj & Hne) _]. congruence.
    + split.
      * by destruct (r !! "Version").
      * intros [(j & Hj & Hne) _]%Forall_cons. congruence.
    + intros e. destruct (r !! "Version"); [done|]. intros [= <-]. by right.
  - split_and!.
    + intros v. rewrite IHsome. split.
      * intros (before & r' & after & -> & Hbefore & Hr' & Hv).
        exists (r :: before), r', after. split_and!; try done.
        constructor; [|done]. exists i. split; [done | congruence].
      * intros (before & r' & after & Hrows & Hbefore & Hr' & Hv).
        destruct before as [|r0 before]; simpl in Hrows; injection Hrows as <- Hrows.
        -- congruence.
        -- apply Forall_cons in Hbefore as [_ Hbefore]. by exists before, r', after.
    + rewrite IHnone. split.
      * intros Hall. constructor; [|done]. exists i. split; [done | congruence].
      * by intros [_ ?]%Forall_cons.
    + exact IHerr.
Qed.

(** X7: what [version] returns is settled by the first row that has the
    given Instance cell or no Instance cell at all: it returns the Version
    cell of the first row whose Instance cell is the argument, provided every
    row before it has another Instance cell; it returns [None] exactly when
    every row has an Instance cell and none is the argument; and whatever it
    raises is KeyError for 'Instance' or 'Version'. *)
Theorem version_characterised (self : Lssap) (instance : string) :
  (∀ v, (version self instance).2 = Ok (Some v) ↔
        ∃ before (r : row) after,
          data self = before ++ r :: after ∧
          Forall (other_instance instance) before ∧
          r !! "Instance" = Some instance ∧ r !! "Version" = Some v) ∧
  ((version self instance).2 = Ok None ↔
     Forall (other_instance instance) (data self)) ∧
  (∀ e, (version self instance).2 = Err e →
        e = KeyError "Instance" ∨ e = KeyError "Version").
Proof. apply version_in_cases. Qed.

Lemma version_in_complete rows instance :
  Forall complete rows →
  (∃ r : row, r ∈ rows ∧ r !! "Instance" = Some instance) →
  ∃ v, version_in rows instance = Ok (Some v).
Proof.
  induction 1 as [|r rows [[i Hi] [w Hw]] _ IH]; intros (r' & Hin & Hr').
  { by apply elem_of_nil in Hin. }
  simpl. rewrite Hi. case_bool_decide as Heq.
  - rewrite Hw. by exists w.
  - apply IH. apply elem_of_cons in Hin as [->|Hin]; [congruence|]. by exists r'.
Qed.

Section Listed.
Variable parse_delimited_table : list string → list row.
Variable repr : list string → string.

(** X10: [instances] and [version] agree: an instance [version] finds is
    one of [instances], and when every row of the table has an Instance and
    a Version cell, [version] finds a version for every instance listed in
    [instances]. *)
Theorem version_defined_on_instances content self :
  parse_content parse_delimited_table repr content = Ok self →
  (∀ i v, (version self i).2 = Ok (Some v) → i ∈ instances self) ∧
  (Forall complete (data self) →
   ∀ i, i ∈ instances self → ∃ v, (version self i).2 = Ok (Some v)).
Proof.
  intros Hparse.
  assert (∀ i, i ∈ instances self ↔ ∃ r : row, r ∈ data self ∧ r !! "Instance" = Some i)
    as Hinst.
  { revert Hparse. unfold parse_content. destruct (_ && _); [|done].
    intros [= <-] i. simpl. by rewrite list_elem_of_omap. }
  split.
  - intros i v Hv. apply Hinst.
    apply (proj1 (version_in_cases (data self) i)) in Hv
      as (before & r & after & Hdata & _ & Hr & _).
    exists r. split; [|done]. rewrite Hdata. apply elem_of_app. right. left.
  - intros Hcomplete i Hi%Hinst. by apply version_in_complete.
Qed.

End Listed.

(** *** The table of the module docstring *)

Lemma instance_type_detected_witness :
  ∃ self,
    parse_content (read_table "|") show_lines lssap_output = Ok self ∧
    (∀ T, rstrip digits T = T → T ∈ instance_types self ↔ has_instance_of self T) ∧
    (is_netweaver self = true ↔ has_instance_of self "D") ∧
    (is_hana self = true ↔ has_instance_of self "HDB") ∧
    (is_ascs self = true ↔ has_instance_of self "ASCS").
Proof.
  destruct (is_ok_Ok (parse_content (read_table "|") show_lines lssap_output))
    as [self Hparse]; [vm_compute; reflexivity|].
  exists self. split; [exact Hparse|].
  exact (instance_type_detected (read_table "|") show_lines lssap_output self Hparse).
Defined.

Lemma version_defined_on_instances_witness :
  ∃ self,
    parse_content (read_table "|") show_lines lssap_output = Ok self ∧
    (∀ i v, (version self i).2 = Ok (Some v) → i ∈ instances self) ∧
    (Forall complete (data self) →
     ∀ i, i ∈ instances self → ∃ v, (version self i).2 = Ok (Some v)).
Proof.
  destruct (is_ok_Ok (parse_content (read_table "|") show_lines lssap_output))
    as [self Hparse]; [vm_compute; reflexivity|].
  exists self. split; [exact Hparse|].
  exact (version_defined_on_instances (read_table "|") show_lines lssap_output self Hparse).
Defined.

(** The rows of the docstring table are complete, and it is a NetWeaver
    system. *)
Example docstring_table_complete :
  match parsed lssap_output with
  | Ok self =>
      forallb (λ r : row, bool_decide (complete r)) (data self) = true ∧
      is_netweaver self = true ∧ is_hana self = false ∧ is_ascs self = false
  | Err _ => False
  end.
Proof. vm_compute. by repeat split. Qed.

End LssapBehaviour.
